(** * nanny: the round-robin load balancer

    A shallow embedding of [round-robin-load-balancer.js] and the proofs of
    the properties stated about it.

    The load balancer is a JavaScript object mutated by its methods and by
    the handlers of its server's events.  The embedding keeps the object as
    a record, the part of the Node.js runtime it talks to (the calls it
    makes, the pending timers) as a second record, and writes every method
    in a small state-and-exception monad, one line of Rocq per line of
    JavaScript.

    Worker supervisors, the logger, listeners and callbacks, [net] and the
    timers are not part of the file: they appear as the calls made to them,
    recorded in order, and what they do in return reaches the load balancer
    as a later event.  Handlers run to completion; a worker or a listener
    that calls back into the load balancer from inside such a call is not
    modelled. *)

From Stdlib Require Import String.
From Stdlib Require Import List Arith Bool ZArith Lia Permutation.
Import ListNotations.

(** ** Values *)

(** Worker supervisors, connections, callbacks and error objects are
    JavaScript objects that the load balancer only stores, compares by
    identity ([indexOf]) and passes on: each is a number that stands for the
    identity of the object. *)
Abbreviation Worker := nat (only parsing).
Abbreviation Connection := nat (only parsing).
Abbreviation Callback := nat (only parsing).
Abbreviation Err := nat (only parsing).
Abbreviation Server := nat (only parsing).
Abbreviation Timer := nat (only parsing).
(** What [server.address()] answers for a listening server. *)
Abbreviation Address := nat (only parsing).
(** The host name of [spec.address]. *)
Abbreviation Host := nat (only parsing).

(** [this.state]: one of 'standby', 'starting', 'running', 'stopping'. *)
Inductive State : Type := standby | starting | running | stopping.

Definition State_eqb (a b : State) : bool :=
  match a, b with
  | standby, standby | starting, starting
  | running, running | stopping, stopping => true
  | _, _ => false
  end.

Inductive Level : Type := debug | info | warn | error.

(** What a handler can throw. *)
Inductive Exn : Type :=
| ServerError (e : Err)            (* [throw error] in [handleError] *)
| AssertionFailed (msg : string)   (* [throw new Error(...)] in [handleClose] *)
| TypeError (msg : string).        (* a method called on [null] *)

(** Every call that leaves the load balancer, in the order it is made. *)
Inductive Effect : Type :=
| Emit (s : State)                                   (* this.emit(state, this) *)
| EmitStateChange (s : State)                        (* this.emit('stateChange', ...) *)
| Invoke (cb : Callback)                             (* a once('standby') listener runs *)
| NextTick (cb : Callback)                           (* process.nextTick(callback) *)
| CreateServer (sv : Server)                         (* net.createServer() *)
| Listen (sv : Server) (p : nat) (h : option Host) (b : option nat)
| ServerClose (sv : Server)                          (* server.close() *)
| SendAddress (ws : Worker) (p : option nat) (a : option Address)
| SendError (ws : Worker) (p : option nat) (e : Err)
| HandleConnection (ws : Worker) (p : option nat) (c : Connection)
| Visit (cb : Callback) (ws : Worker)                (* forEachWorkerSupervisor's callback *)
| SetTimeout (t : Timer) (delay : nat)
| Log (l : Level) (msg : string).

(** ** The object and the runtime *)

(** The argument of the constructor.  [spec.logger] is not a field here:
    every method calls it without a test, so a specification object has
    one, and what is logged is recorded as [Log] calls (level and message;
    the payload object is left out). *)
Record Spec : Type := {
  spec_port : option nat;
  spec_address : option Host;
  spec_backlog : option nat;
  spec_restartDelay : option nat
}.

(** The fields of [this].  [standbyOnce] holds the listeners that [stop]
    registers with [this.once('standby', callback)].  [waitingWorkers],
    which no method reads or writes, and the bound handlers are left
    out. *)
Record LoadBalancer : Type := {
  port : option nat;
  requestedAddress : option Host;
  requestedBacklog : option nat;
  address : option Address;
  server : option Server;
  restartDelay : nat;
  state : State;
  nextState : option State;
  ring : list Worker;
  queue : list Connection;
  restartTimeoutHandle : option Timer;
  standbyOnce : list Callback
}.

(** The runtime: the calls made so far, the timers that are armed and have
    not fired, and the next fresh handle. *)
Record Runtime : Type := {
  trace : list Effect;
  timers : list Timer;
  fresh : nat
}.

Record World : Type := { lb : LoadBalancer; rt : Runtime }.

Definition set_address (a : option Address) (b : LoadBalancer) : LoadBalancer :=
  {| port := port b; requestedAddress := requestedAddress b;
     requestedBacklog := requestedBacklog b; address := a; server := server b;
     restartDelay := restartDelay b; state := state b; nextState := nextState b;
     ring := ring b; queue := queue b;
     restartTimeoutHandle := restartTimeoutHandle b; standbyOnce := standbyOnce b |}.

Definition set_server (s : option Server) (b : LoadBalancer) : LoadBalancer :=
  {| port := port b; requestedAddress := requestedAddress b;
     requestedBacklog := requestedBacklog b; address := address b; server := s;
     restartDelay := restartDelay b; state := state b; nextState := nextState b;
     ring := ring b; queue := queue b;
     restartTimeoutHandle := restartTimeoutHandle b; standbyOnce := standbyOnce b |}.

Definition set_state (s : State) (b : LoadBalancer) : LoadBalancer :=
  {| port := port b; requestedAddress := requestedAddress b;
     requestedBacklog := requestedBacklog b; address := address b; server := server b;
     restartDelay := restartDelay b; state := s; nextState := nextState b;
     ring := ring b; queue := queue b;
     restartTimeoutHandle := restartTimeoutHandle b; standbyOnce := standbyOnce b |}.

Definition set_nextState (s : option State) (b : LoadBalancer) : LoadBalancer :=
  {| port := port b; requestedAddress := requestedAddress b;
     requestedBacklog := requestedBacklog b; address := address b; server := server b;
     restartDelay := restartDelay b; state := state b; nextState := s;
     ring := ring b; queue := queue b;
     restartTimeoutHandle := restartTimeoutHandle b; standbyOnce := standbyOnce b |}.

Definition set_ring (r : list Worker) (b : LoadBalancer) : LoadBalancer :=
  {| port := port b; requestedAddress := requestedAddress b;
     requestedBacklog := requestedBacklog b; address := address b; server := server b;
     restartDelay := restartDelay b; state := state b; nextState := nextState b;
     ring := r; queue := queue b;
     restartTimeoutHandle := restartTimeoutHandle b; standbyOnce := standbyOnce b |}.

Definition set_queue (q : list Connection) (b : LoadBalancer) : LoadBalancer :=
  {| port := port b; requestedAddress := requestedAddress b;
     requestedBacklog := requestedBacklog b; address := address b; server := server b;
     restartDelay := restartDelay b; state := state b; nextState := nextState b;
     ring := ring b; queue := q;
     restartTimeoutHandle := restartTimeoutHandle b; standbyOnce := standbyOnce b |}.

Definition set_restartTimeoutHandle (t : option Timer) (b : LoadBalancer) : LoadBalancer :=
  {| port := port b; requestedAddress := requestedAddress b;
     requestedBacklog := requestedBacklog b; address := address b; server := server b;
     restartDelay := restartDelay b; state := state b; nextState := nextState b;
     ring := ring b; queue := queue b;
     restartTimeoutHandle := t; standbyOnce := standbyOnce b |}.

Definition set_standbyOnce (l : list Callback) (b : LoadBalancer) : LoadBalancer :=
  {| port := port b; requestedAddress := requestedAddress b;
     requestedBacklog := requestedBacklog b; address := address b; server := server b;
     restartDelay := restartDelay b; state := state b; nextState := nextState b;
     ring := ring b; queue := queue b;
     restartTimeoutHandle := restartTimeoutHandle b; standbyOnce := l |}.

(** The world after the fields of [this] were updated by [f], and after the
    calls [d] were made, in that order. *)
Definition upd (f : LoadBalancer -> LoadBalancer) (w : World) : World :=
  {| lb := f (lb w); rt := rt w |}.

Definition said (d : list Effect) (w : World) : World :=
  {| lb := lb w;
     rt := {| trace := trace (rt w) ++ d; timers := timers (rt w);
              fresh := fresh (rt w) |} |}.

Definition bump (w : World) : World :=
  {| lb := lb w;
     rt := {| trace := trace (rt w); timers := timers (rt w);
              fresh := S (fresh (rt w)) |} |}.

Definition with_timers (l : list Timer) (w : World) : World :=
  {| lb := lb w;
     rt := {| trace := trace (rt w); timers := l; fresh := fresh (rt w) |} |}.

(** ** The monad of methods

    A method reads and writes the world and either returns or throws; what
    it had written before it threw stays written. *)

Inductive Outcome (A : Type) : Type :=
| Returned (a : A) (w : World)
| Thrown (e : Exn) (w : World).

Arguments Returned {A} a w.
Arguments Thrown {A} e w.

Definition Prog (A : Type) : Type := World -> Outcome A.

Definition ret {A : Type} (a : A) : Prog A := fun w => Returned a w.

Definition bind {A B : Type} (m : Prog A) (k : A -> Prog B) : Prog B :=
  fun w => match m w with
           | Returned a w' => k a w'
           | Thrown e w' => Thrown e w'
           end.

Definition throw {A : Type} (e : Exn) : Prog A := fun w => Thrown e w.

Declare Scope prog_scope.
Delimit Scope prog_scope with prog.
Notation "x <- m ;; k" := (bind m (fun x => k))
  (at level 61, m at next level, right associativity) : prog_scope.
Notation "m ;; k" := (bind m (fun _ => k))
  (at level 61, right associativity) : prog_scope.
Open Scope prog_scope.

(** Reading a field of [this]. *)
Definition this {A : Type} (field : LoadBalancer -> A) : Prog A :=
  fun w => Returned (field (lb w)) w.

(** [this.field = v]. *)
Definition assign (f : LoadBalancer -> LoadBalancer) : Prog unit :=
  fun w => Returned tt (upd f w).

(** A call that leaves the load balancer. *)
Definition call (e : Effect) : Prog unit :=
  fun w => Returned tt (said [e] w).

(** A fresh object identity (a new server, a new timer handle). *)
Definition gensym : Prog nat :=
  fun w => Returned (fresh (rt w)) (bump w).

Definition pending : Prog (list Timer) := fun w => Returned (timers (rt w)) w.

Definition set_pending (l : list Timer) : Prog unit :=
  fun w => Returned tt (with_timers l w).

(** [array.forEach(f)]: [f] on every element, first to last. *)
Fixpoint forEach {A : Type} (f : A -> Prog unit) (l : list A) : Prog unit :=
  match l with
  | [] => ret tt
  | x :: t => f x ;; forEach f t
  end.

Definition skip : Prog unit := ret tt.

(** ** Arrays

    [this.ring] and [this.queue] are JavaScript arrays ([Ring = Array]). *)

(** [array.indexOf(x)]: the first index that holds [x], [-1] when none does. *)
Fixpoint indexOf_from (i : Z) (l : list nat) (x : nat) : Z :=
  match l with
  | [] => (-1)%Z
  | y :: t => if Nat.eqb y x then i else indexOf_from (i + 1)%Z t x
  end.

Definition indexOf (l : list nat) (x : nat) : Z := indexOf_from 0%Z l x.

(** [array.splice(index, 1)] for [0 <= index]: drops the element at
    [index]; past the end it drops nothing. *)
Definition splice1 (index : Z) (l : list nat) : list nat :=
  firstn (Z.to_nat index) l ++ skipn (S (Z.to_nat index)) l.

(** [x || 0] for a number that may be [undefined]. *)
Definition or_zero (x : option nat) : nat :=
  match x with Some n => n | None => 0 end.

(** ** The server and the timers

    [this.server.close()] and [this.server.address()] are method calls on a
    field that is [null] until [start] ran; on [null] they are a TypeError.
    The address a listening server reports is the one the operating system
    granted; it reaches the model as the argument of the [listening]
    event. *)

Definition server_close : Prog unit :=
  sv <- this server ;;
  match sv with
  | Some s => call (ServerClose s)
  | None => throw (TypeError "Cannot read properties of null (reading 'close')")
  end.

Definition server_address (granted : Address) : Prog (option Address) :=
  sv <- this server ;;
  match sv with
  | Some _ => ret (Some granted)
  | None => throw (TypeError "Cannot read properties of null (reading 'address')")
  end.

(** [setTimeout(handler, delay)]: arms a one-shot timer and returns its
    handle.  The only handler ever passed is [handleRestartTimeout]. *)
Definition setTimeout (delay : nat) : Prog Timer :=
  t <- gensym ;;
  l <- pending ;;
  set_pending (l ++ [t]) ;;
  call (SetTimeout t delay) ;;
  ret t.

(** ** The methods of [RoundRobinLoadBalancer.prototype] *)

(** [this.emit(state, this)]: the only listeners the load balancer itself
    registers are the [once('standby', callback)] of [stop]; they run in
    the order they were registered and are removed as they run. *)
Definition emit (s : State) : Prog unit :=
  call (Emit s) ;;
  match s with
  | standby =>
      ls <- this standbyOnce ;;
      assign (set_standbyOnce []) ;;
      forEach (fun cb => call (Invoke cb)) ls
  | _ => skip
  end.

Definition goto (s : State) : Prog unit :=
  assign (set_state s) ;;
  emit s ;;
  call (EmitStateChange s).


Definition handleConnection (connection : Connection) : Prog unit :=
  st <- this state ;;
  r <- this ring ;;
  match State_eqb st running, r with
  | true, workerSupervisor :: rest =>
      (* var workerSupervisor = this.ring.shift(); *)
      assign (set_ring rest) ;;
      (* this.ring.push(workerSupervisor); *)
      r' <- this ring ;;
      assign (set_ring (r' ++ [workerSupervisor])) ;;
      p <- this port ;;
      call (HandleConnection workerSupervisor p connection)
  | _, _ =>
      q <- this queue ;;
      assign (set_queue (q ++ [connection])) ;;
      call (Log info "connection backlog")
  end.

(** [this.queue.forEach] visits the entries that were in the queue when it
    was called; [this.queue.length = 0] then empties the array. *)
Definition flushConnectionQueue : Prog unit :=
  st <- this state ;;
  r <- this ring ;;
  if State_eqb st running && negb (Nat.eqb (length r) 0) then
    q <- this queue ;;
    forEach handleConnection q ;;
    assign (set_queue []) ;;
    call (Log debug "connection backlog")
  else skip.

Definition addWorkerSupervisor (workerSupervisor : Worker) : Prog unit :=
  r <- this ring ;;
  assign (set_ring (r ++ [workerSupervisor])) ;;
  call (Log debug "worker subscribed to connections") ;;
  st <- this state ;;
  (if State_eqb st running then
     p <- this port ;;
     a <- this address ;;
     call (SendAddress workerSupervisor p a)
   else skip) ;;
  flushConnectionQueue.

Definition removeWorkerSupervisor (workerSupervisor : Worker) : Prog unit :=
  r <- this ring ;;
  let index := indexOf r workerSupervisor in
  if (0 <=? index)%Z then assign (set_ring (splice1 index r)) else skip.

Definition forEachWorkerSupervisor (callback : Callback) : Prog unit :=
  r <- this ring ;;
  forEach (fun workerSupervisor => call (Visit callback workerSupervisor)) r.

(** The four [server.on(...)] of [start] route the server's events to the
    handlers below; the event loop [handle] does that routing. *)
Definition start : Prog unit :=
  st <- this state ;;
  match st with
  | standby =>
      goto starting ;;
      sv <- gensym ;;
      call (CreateServer sv) ;;
      assign (set_server (Some sv)) ;;
      call (Log debug "supervisor requesting to listen on port") ;;
      p <- this port ;;
      h <- this requestedAddress ;;
      b <- this requestedBacklog ;;
      call (Listen sv (or_zero p) h b)
  | stopping => assign (set_nextState (Some starting))
  | _ => skip
  end.

Definition stop (callback : option Callback) : Prog unit :=
  match callback with
  | Some cb =>
      st <- this state ;;
      if negb (State_eqb st standby) then
        ls <- this standbyOnce ;;
        assign (set_standbyOnce (ls ++ [cb]))
      else call (NextTick cb)
  | None => skip
  end ;;
  st <- this state ;;
  if State_eqb st running || State_eqb st starting then
    (if State_eqb st running then server_close else skip) ;;
    goto stopping
  else skip.

Definition handleListening (granted : Address) : Prog unit :=
  st <- this state ;;
  match st with
  | starting =>
      goto running ;;
      a <- server_address granted ;;
      assign (set_address a) ;;
      call (Log debug "supervisor received address to listen on port") ;;
      r <- this ring ;;
      forEach (fun workerSupervisor =>
                 p <- this port ;;
                 a' <- this address ;;
                 call (SendAddress workerSupervisor p a')) r ;;
      flushConnectionQueue
  | stopping =>
      call (Log warn "supervisor shutting down server before confirmed to be listening") ;;
      server_close
  | _ => skip
  end.

Definition handleError (e : Err) : Prog unit :=
  call (Log error "supervisor failed to listen") ;;
  st <- this state ;;
  match st with
  | running | stopping =>
      r <- this ring ;;
      forEach (fun workerSupervisor =>
                 p <- this port ;;
                 call (SendError workerSupervisor p e)) r ;;
      stop None
  | starting => stop None
  | standby => throw (ServerError e)
  end.

Definition handleClose : Prog unit :=
  st <- this state ;;
  match st with
  | stopping | running =>
      goto standby ;;
      call (Log info "supervisor stopped listening on port") ;;
      ns <- this nextState ;;
      match ns with
      | Some starting =>
          d <- this restartDelay ;;
          t <- setTimeout d ;;
          assign (set_restartTimeoutHandle (Some t)) ;;
          assign (set_nextState None)
      | _ => skip
      end
  | _ =>
      throw (AssertionFailed
               "Assertion failed: close event not expected when server is not running")
  end.

Definition handleRestartTimeout : Prog unit := start.

(** The constructor: the fields, then [this.start()]. *)
Definition fields (spec : Spec) : LoadBalancer :=
  {| port := spec_port spec;
     requestedAddress := spec_address spec;
     requestedBacklog := spec_backlog spec;
     address := None;
     server := None;
     restartDelay := or_zero (spec_restartDelay spec);
     state := standby;
     nextState := None;
     ring := [];
     queue := [];
     restartTimeoutHandle := None;
     standbyOnce := [] |}.

Definition boot : Runtime := {| trace := []; timers := []; fresh := 0 |}.

Definition RoundRobinLoadBalancer (spec : Spec) : Outcome unit :=
  start {| lb := fields spec; rt := boot |}.

(** ** The event loop

    Everything that can happen to a constructed load balancer: a call of a
    public method, an event of its server, or a timer firing.  Handlers run
    to completion, one after the other.  A timer fires at most once and only
    while it is armed; firing it disarms it and runs [handleRestartTimeout]. *)
Inductive Event : Type :=
| START
| STOP (callback : option Callback)
| ADD (workerSupervisor : Worker)
| REMOVE (workerSupervisor : Worker)
| FOREACH (callback : Callback)
| LISTENING (granted : Address)
| CONNECTION (connection : Connection)
| ERROR (e : Err)
| CLOSE
| TIMEOUT (t : Timer).

Definition armed (t : Timer) (l : list Timer) : bool := existsb (Nat.eqb t) l.

Definition disarm (t : Timer) (l : list Timer) : list Timer :=
  filter (fun t' => negb (Nat.eqb t t')) l.

Definition fire (t : Timer) : Prog unit :=
  l <- pending ;;
  if armed t l then set_pending (disarm t l) ;; handleRestartTimeout else skip.

Definition handle (ev : Event) : Prog unit :=
  match ev with
  | START => start
  | STOP cb => stop cb
  | ADD ws => addWorkerSupervisor ws
  | REMOVE ws => removeWorkerSupervisor ws
  | FOREACH cb => forEachWorkerSupervisor cb
  | LISTENING a => handleListening a
  | CONNECTION c => handleConnection c
  | ERROR e => handleError e
  | CLOSE => handleClose
  | TIMEOUT t => fire t
  end.

(** A run of the event loop; an uncaught exception ends it. *)
Definition run (evs : list Event) : Prog unit := forEach handle evs.

(** The worlds a constructed load balancer can be in between two events. *)
Inductive reachable : World -> Prop :=
| reach_new (spec : Spec) (w : World) :
    RoundRobinLoadBalancer spec = Returned tt w -> reachable w
| reach_step (w w' : World) (ev : Event) :
    reachable w -> handle ev w = Returned tt w' -> reachable w'.

(** ** What can be observed of a run *)

(** The world an outcome leaves behind, returned or thrown. *)
Definition world_of {A : Type} (o : Outcome A) : World :=
  match o with
  | Returned _ w => w
  | Thrown _ w => w
  end.

(** The ring after [n] times [push(shift())]. *)
Fixpoint turn (n : nat) (r : list Worker) : list Worker :=
  match n, r with
  | S n', ws :: rest => turn n' (rest ++ [ws])
  | _, _ => r
  end.

(** Who gets which connection when the connections [cs] are dispatched in
    order over the ring [r]. *)
Fixpoint deal (r : list Worker) (cs : list Connection) : list (Worker * Connection) :=
  match cs, r with
  | c :: cs', ws :: rest => (ws, c) :: deal (rest ++ [ws]) cs'
  | _, _ => []
  end.

(** The connections handed to workers, the server closes requested and the
    states entered, as a trace records them. *)
Definition dispatched (tr : list Effect) : list (Worker * Connection) :=
  flat_map (fun e => match e with
                     | HandleConnection ws _ c => [(ws, c)]
                     | _ => []
                     end) tr.

Definition closes (tr : list Effect) : list Server :=
  flat_map (fun e => match e with ServerClose sv => [sv] | _ => [] end) tr.

Definition transitions (tr : list Effect) : list State :=
  flat_map (fun e => match e with EmitStateChange s => [s] | _ => [] end) tr.

Definition listens (tr : list Effect) : list Server :=
  flat_map (fun e => match e with Listen sv _ _ _ => [sv] | _ => [] end) tr.

(** How many connections the worker [ws] was handed. *)
Definition received (ws : Worker) (tr : list Effect) : nat :=
  count_occ Nat.eq_dec (map fst (dispatched tr)) ws.

(** Every [addWorkerSupervisor] of the run is given a worker that is not in
    the ring at the time of the call. *)
Fixpoint adds_fresh (evs : list Event) (w : World) : bool :=
  match evs with
  | [] => true
  | ev :: rest =>
      match ev with
      | ADD ws => negb (existsb (Nat.eqb ws) (ring (lb w)))
      | _ => true
      end
      && match handle ev w with
         | Returned _ w' => adds_fresh rest w'
         | Thrown _ _ => true
         end
  end.

(** Events that neither start nor stop the load balancer nor come from its
    server's life cycle: connections arriving and ring maintenance. *)
Definition traffic (ev : Event) : bool :=
  match ev with
  | CONNECTION _ | ADD _ | REMOVE _ | FOREACH _ => true
  | _ => false
  end.

(** The call that hands a connection to a worker. *)
Definition hand (p : option nat) (wc : Worker * Connection) : Effect :=
  HandleConnection (fst wc) p (snd wc).

(** The world [flushConnectionQueue] leaves: on a running load balancer
    with a ring that is not empty the queue has been dealt over the ring and
    emptied; otherwise nothing has changed. *)
Definition flushed (w : World) : World :=
  if State_eqb (state (lb w)) running && negb (Nat.eqb (length (ring (lb w))) 0) then
    said (map (hand (port (lb w))) (deal (ring (lb w)) (queue (lb w)))
            ++ [Log debug "connection backlog"])
         (upd (fun b => set_queue [] (set_ring (turn (length (queue b)) (ring b)) b)) w)
  else w.

(** The world [goto(state)] leaves. *)
Definition gone (s : State) (w : World) : World :=
  match s with
  | standby =>
      said (Emit standby :: map Invoke (standbyOnce (lb w)) ++ [EmitStateChange standby])
           (upd (fun b => set_standbyOnce [] (set_state standby b)) w)
  | _ => said [Emit s; EmitStateChange s] (upd (set_state s) w)
  end.

(** The world after the first statement of [stop]: the callback, when
    there is one, waits for 'standby' or for the next tick. *)
Definition registered (callback : option Callback) (w : World) : World :=
  match callback with
  | Some cb =>
      if negb (State_eqb (state (lb w)) standby)
      then upd (set_standbyOnce (standbyOnce (lb w) ++ [cb])) w
      else said [NextTick cb] w
  | None => w
  end.

(** The world [handleClose] leaves when it arms the restart timer, from the
    world [w1] it had reached before. *)
Definition rearmed (w1 : World) : World :=
  upd (fun b => set_nextState None
                  (set_restartTimeoutHandle (Some (fresh (rt w1))) b))
      (said [SetTimeout (fresh (rt w1)) (restartDelay (lb w1))]
            (with_timers (timers (rt w1) ++ [fresh (rt w1)]) (bump w1))).

(** The world a constructor call leaves, and the world after the events
    [evs] were then handled. *)
Definition constructed (spec : Spec) : World :=
  world_of (RoundRobinLoadBalancer spec).

Definition after (spec : Spec) (evs : list Event) : World :=
  world_of (run evs (constructed spec)).

Definition returned {A : Type} (o : Outcome A) : bool :=
  match o with
  | Returned _ _ => true
  | Thrown _ _ => false
  end.

(** A load balancer for port 80 that restarts 100 ms after a close. *)
Definition example_spec : Spec :=
  {| spec_port := Some 80; spec_address := None; spec_backlog := None;
     spec_restartDelay := Some 100 |}.

(** The address/state property as the specification words it: [address]
    is set exactly in 'running' and 'stopping'. *)
Definition address_iff_state (w : World) : Prop :=
  address (lb w) <> None <->
  (state (lb w) = running \/ state (lb w) = stopping).

(** What connections and ring maintenance leave untouched while the load
    balancer is not running: the state, the server, the latched restart,
    and the closes, dispatches and state changes on record. *)
Definition quiet (w w' : World) : Prop :=
  state (lb w') = state (lb w) /\
  server (lb w') = server (lb w) /\
  nextState (lb w') = nextState (lb w) /\
  closes (trace (rt w')) = closes (trace (rt w)) /\
  dispatched (trace (rt w')) = dispatched (trace (rt w)) /\
  transitions (trace (rt w')) = transitions (trace (rt w)).


(** The callbacks handed to [stop] in a run of events, and the callbacks a
    trace shows were run (as 'standby' listeners) or scheduled (with
    [process.nextTick]). *)
Definition asked (evs : list Event) : list nat :=
  flat_map (fun ev => match ev with STOP (Some cb) => [cb] | _ => [] end) evs.

Definition called (tr : list Effect) : list nat :=
  flat_map (fun e => match e with
                     | Invoke cb | NextTick cb => [cb]
                     | _ => []
                     end) tr.

(** No event of the run is [addWorkerSupervisor(ws)]. *)
Definition never_adds (ws : nat) (evs : list Event) : bool :=
  forallb (fun ev => match ev with ADD x => negb (Nat.eqb x ws) | _ => true end) evs.



(** The servers of a load balancer are in order: no server was asked to
    listen twice, [this.server] is the server of the latest listen, and only
    servers that were asked to listen have been closed.  (Servers and timers
    are numbered from one counter; every server so far is below it.) *)
Definition servers_ok (w : World) : Prop :=
  NoDup (listens (trace (rt w))) /\
  (forall x, In x (listens (trace (rt w))) -> x < fresh (rt w)) /\
  (exists l0 sv, listens (trace (rt w)) = l0 ++ [sv] /\ server (lb w) = Some sv) /\
  (forall x, In x (closes (trace (rt w))) -> In x (listens (trace (rt w)))).


(** ** Basic facts about worlds and loops *)

(** Both sides of an equation between traces, associated to the right. *)
Ltac list_assoc := repeat (progress (rewrite <- ?app_assoc; simpl)).

(** Calls of one kind leave no mark in the observations of another kind. *)
Lemma flat_map_none {A B C : Type} (f : B -> list C) (g : A -> B) (l : list A) :
  (forall x, f (g x) = []) -> flat_map f (map g l) = [].
Proof.
  intro H; induction l as [|x l IH]; simpl; [reflexivity|].
  now rewrite H, IH.
Qed.

Ltac observe :=
  unfold listens, transitions, closes, dispatched;
  repeat (progress (rewrite ?flat_map_app; simpl));
  rewrite ?flat_map_none by (intros; reflexivity);
  rewrite ?app_nil_r; list_assoc.

Lemma said_nil (w : World) : said [] w = w.
Proof.
  destruct w as [b [tr tm fr]]; unfold said; simpl; now rewrite app_nil_r.
Qed.

Lemma said_said (d1 d2 : list Effect) (w : World) :
  said d2 (said d1 w) = said (d1 ++ d2) w.
Proof.
  unfold said; simpl; now rewrite app_assoc.
Qed.

Lemma upd_said (f : LoadBalancer -> LoadBalancer) (d : list Effect) (w : World) :
  upd f (said d w) = said d (upd f w).
Proof. reflexivity. Qed.

(** A loop whose body makes one call, computed from the element and the
    fields of [this], makes the calls for all elements in order. *)
Lemma forEach_said {A : Type} (f : A -> Prog unit) (E : LoadBalancer -> A -> Effect) :
  (forall x w, f x w = Returned tt (said [E (lb w) x] w)) ->
  forall l w, forEach f l w = Returned tt (said (map (E (lb w)) l) w).
Proof.
  intros Hf l; induction l as [|x l IH]; intro w; simpl.
  - now rewrite said_nil.
  - unfold bind; rewrite Hf, IH; simpl; now rewrite said_said.
Qed.

(** ** start *)

Lemma start_eq (w : World) :
  start w = Returned tt
    match state (lb w) with
    | standby =>
        said [Emit starting; EmitStateChange starting;
              CreateServer (fresh (rt w));
              Log debug "supervisor requesting to listen on port";
              Listen (fresh (rt w)) (or_zero (port (lb w)))
                     (requestedAddress (lb w)) (requestedBacklog (lb w))]
             (bump (upd (fun b => set_server (Some (fresh (rt w)))
                                              (set_state starting b)) w))
    | stopping => upd (set_nextState (Some starting)) w
    | starting | running => w
    end.
Proof.
  destruct w as [[p ra rb a sv rd st ns r q h so] [tr tm fr]].
  destruct st; cbv -[app or_zero]; try reflexivity.
  now rewrite <- !app_assoc.
Qed.

(** C6. [start()] in 'standby' enters 'starting', creates a server and asks
    it to listen; in 'stopping' it only sets [nextState] to 'starting'; in
    'starting' and in 'running' it leaves the world as it is: no state
    change and no further listen request. *)
Theorem start_transition_table (w : World) :
  start w = Returned tt
    match state (lb w) with
    | standby =>
        said [Emit starting; EmitStateChange starting;
              CreateServer (fresh (rt w));
              Log debug "supervisor requesting to listen on port";
              Listen (fresh (rt w)) (or_zero (port (lb w)))
                     (requestedAddress (lb w)) (requestedBacklog (lb w))]
             (bump (upd (fun b => set_server (Some (fresh (rt w)))
                                              (set_state starting b)) w))
    | stopping => upd (set_nextState (Some starting)) w
    | starting | running => w
    end.
Proof. exact (start_eq w). Qed.

(** C10. The constructor ends with [this.start()]: for every specification
    object the new load balancer is in 'starting', has entered no other
    state, and has created one server and asked it to listen; it is not in
    'standby'. *)
Theorem construction_auto_starts (spec : Spec) :
  exists w,
    RoundRobinLoadBalancer spec = Returned tt w /\
    state (lb w) = starting /\
    state (lb w) <> standby /\
    transitions (trace (rt w)) = [starting] /\
    trace (rt w) =
      [Emit starting; EmitStateChange starting; CreateServer 0;
       Log debug "supervisor requesting to listen on port";
       Listen 0 (or_zero (spec_port spec)) (spec_address spec) (spec_backlog spec)].
Proof.
  eexists; split; [reflexivity|].
  repeat split; discriminate.
Qed.

(** ** Dispatching connections *)

Lemma handleConnection_eq (c : Connection) (w : World) :
  handleConnection c w = Returned tt
    match State_eqb (state (lb w)) running, ring (lb w) with
    | true, ws :: rest =>
        said [HandleConnection ws (port (lb w)) c] (upd (set_ring (rest ++ [ws])) w)
    | _, _ =>
        said [Log info "connection backlog"] (upd (set_queue (queue (lb w) ++ [c])) w)
    end.
Proof.
  destruct w as [[p ra rb a sv rd st ns r q h so] [tr tm fr]].
  destruct st, r; reflexivity.
Qed.

(** The loop of [flushConnectionQueue], and any run of connections, on a
    running load balancer with a ring that is not empty. *)
Lemma dispatch_loop (cs : list Connection) :
  forall w, state (lb w) = running -> ring (lb w) <> [] ->
  forEach handleConnection cs w = Returned tt
    (said (map (hand (port (lb w))) (deal (ring (lb w)) cs))
          (upd (set_ring (turn (length cs) (ring (lb w)))) w)).
Proof.
  induction cs as [|c cs IH]; intros w Hs Hr.
  - destruct w as [[p ra rb a sv rd st ns r q h so] [tr tm fr]].
    cbv -[app]; now rewrite app_nil_r.
  - simpl forEach; unfold bind.
    rewrite handleConnection_eq, Hs.
    destruct w as [[p ra rb a sv rd st ns r q h so] [tr tm fr]].
    simpl in Hs, Hr |- *.
    destruct r as [|ws rest]; [contradiction|].
    subst st.
    rewrite IH; [|reflexivity|simpl; now destruct rest].
    simpl. unfold said, upd, hand; simpl.
    now rewrite <- app_assoc.
Qed.

Lemma forEach_map {A B : Type} (g : A -> B) (f : B -> Prog unit) (l : list A) :
  forall w, forEach f (map g l) w = forEach (fun x => f (g x)) l w.
Proof.
  induction l as [|x l IH]; intro w; simpl; [reflexivity|].
  unfold bind; destruct (f (g x) w); [apply IH|reflexivity].
Qed.

Lemma run_connections (cs : list Connection) (w : World) :
  run (map CONNECTION cs) w = forEach handleConnection cs w.
Proof. unfold run; now rewrite forEach_map. Qed.

(** ** The methods in closed form *)

Lemma flushConnectionQueue_eq (w : World) :
  flushConnectionQueue w = Returned tt (flushed w).
Proof.
  unfold flushConnectionQueue, flushed, bind, this.
  destruct (State_eqb (state (lb w)) running) eqn:Hs; [|reflexivity].
  destruct (ring (lb w)) as [|ws rest] eqn:Hr; [reflexivity|].
  simpl.
  rewrite dispatch_loop; [|now destruct (state (lb w))|now rewrite Hr].
  rewrite Hr.
  destruct w as [[p ra rb a sv rd st ns r q h so] [tr tm fr]].
  simpl in Hr; subst r.
  cbv -[app map deal turn length]; now rewrite <- app_assoc.
Qed.

Lemma goto_eq (s : State) (w : World) : goto s w = Returned tt (gone s w).
Proof.
  unfold goto, gone, emit, bind, assign, call, this, skip, ret.
  destruct s; try (now rewrite said_said).
  rewrite (forEach_said (fun cb => call (Invoke cb)) (fun _ cb => Invoke cb))
    by reflexivity.
  destruct w as [[p ra rb a sv rd st ns r q h so] [tr tm fr]].
  cbv -[app map]; now rewrite <- !app_assoc.
Qed.

Lemma addWorkerSupervisor_eq (ws : Worker) (w : World) :
  addWorkerSupervisor ws w = Returned tt
    (flushed
       (said (Log debug "worker subscribed to connections"
                :: if State_eqb (state (lb w)) running
                   then [SendAddress ws (port (lb w)) (address (lb w))] else [])
             (upd (set_ring (ring (lb w) ++ [ws])) w))).
Proof.
  unfold addWorkerSupervisor.
  cbv beta iota delta [bind this assign call skip ret].
  change (state (lb (said _ (upd _ w)))) with (state (lb w)).
  destruct (State_eqb (state (lb w)) running);
    cbv beta iota; rewrite flushConnectionQueue_eq; try rewrite said_said;
    reflexivity.
Qed.

Lemma forEachWorkerSupervisor_eq (cb : Callback) (w : World) :
  forEachWorkerSupervisor cb w = Returned tt (said (map (Visit cb) (ring (lb w))) w).
Proof.
  unfold forEachWorkerSupervisor, bind, this.
  now rewrite (forEach_said (fun x => call (Visit cb x)) (fun _ x => Visit cb x)).
Qed.

Lemma stop_eq (callback : option Callback) (w : World) :
  stop callback w =
    match state (lb w), server (lb w) with
    | running, Some sv =>
        Returned tt (gone stopping (said [ServerClose sv] (registered callback w)))
    | running, None =>
        Thrown (TypeError "Cannot read properties of null (reading 'close')")
               (registered callback w)
    | starting, _ => Returned tt (gone stopping (registered callback w))
    | _, _ => Returned tt (registered callback w)
    end.
Proof.
  destruct w as [[p ra rb a sv rd st ns r q h so] [tr tm fr]].
  destruct callback, st, sv; cbv -[app]; rewrite <- ?app_assoc; reflexivity.
Qed.

Lemma handleListening_eq (granted : Address) (w : World) :
  handleListening granted w =
    match state (lb w), server (lb w) with
    | starting, Some _ =>
        Returned tt
          (flushed
             (said (Log debug "supervisor received address to listen on port"
                      :: map (fun ws => SendAddress ws (port (lb w)) (Some granted))
                             (ring (lb w)))
                   (upd (set_address (Some granted)) (gone running w))))
    | starting, None =>
        Thrown (TypeError "Cannot read properties of null (reading 'address')")
               (gone running w)
    | stopping, Some sv =>
        Returned tt
          (said [Log warn "supervisor shutting down server before confirmed to be listening";
                 ServerClose sv] w)
    | stopping, None =>
        Thrown (TypeError "Cannot read properties of null (reading 'close')")
               (said [Log warn "supervisor shutting down server before confirmed to be listening"] w)
    | _, _ => Returned tt w
    end.
Proof.
  unfold handleListening.
  cbv beta iota delta [bind this].
  destruct (state (lb w)) eqn:Hs; try (now destruct (server (lb w))).
  - rewrite goto_eq. cbv beta iota delta [server_address bind this].
    change (server (lb (gone running w))) with (server (lb w)).
    destruct (server (lb w)); [|reflexivity].
    cbv beta iota delta [ret assign call].
    rewrite (forEach_said _ (fun b ws => SendAddress ws (port b) (address b)))
      by reflexivity.
    rewrite flushConnectionQueue_eq.
    now rewrite said_said.
  - cbv beta iota delta [server_close bind this call].
    change (server (lb (said _ w))) with (server (lb w)).
    destruct (server (lb w)); [|reflexivity].
    now rewrite said_said.
Qed.

Lemma handleError_eq (e : Err) (w : World) :
  handleError e w =
    match state (lb w) with
    | running | stopping =>
        stop None (said (Log error "supervisor failed to listen"
                           :: map (fun ws => SendError ws (port (lb w)) e) (ring (lb w)))
                        w)
    | starting => stop None (said [Log error "supervisor failed to listen"] w)
    | standby => Thrown (ServerError e) (said [Log error "supervisor failed to listen"] w)
    end.
Proof.
  unfold handleError.
  cbv beta iota delta [bind this call].
  change (state (lb (said _ w))) with (state (lb w)).
  destruct (state (lb w)); try reflexivity;
    rewrite (forEach_said _ (fun b ws => SendError ws (port b) e)) by reflexivity;
    now rewrite said_said.
Qed.

Lemma handleClose_eq (w : World) :
  handleClose w =
    match state (lb w) with
    | stopping | running =>
        Returned tt
          match nextState (lb w) with
          | Some starting =>
              rearmed (said [Log info "supervisor stopped listening on port"]
                            (gone standby w))
          | _ => said [Log info "supervisor stopped listening on port"] (gone standby w)
          end
    | _ =>
        Thrown (AssertionFailed
                  "Assertion failed: close event not expected when server is not running")
               w
    end.
Proof.
  unfold handleClose.
  cbv beta iota delta [bind this].
  destruct (state (lb w)); try reflexivity;
    rewrite goto_eq; cbv beta iota delta [call];
    change (nextState (lb (said _ (gone standby w)))) with (nextState (lb w));
    destruct (nextState (lb w)) as [[]|]; reflexivity.
Qed.

Lemma fire_eq (t : Timer) (w : World) :
  fire t w =
    if armed t (timers (rt w))
    then start (with_timers (disarm t (timers (rt w))) w)
    else Returned tt w.
Proof.
  unfold fire, bind, pending, set_pending, handleRestartTimeout, skip, ret.
  now destruct (armed t (timers (rt w))).
Qed.

Lemma removeWorkerSupervisor_eq (ws : Worker) (w : World) :
  removeWorkerSupervisor ws w = Returned tt
    (if (0 <=? indexOf (ring (lb w)) ws)%Z
     then upd (set_ring (splice1 (indexOf (ring (lb w)) ws) (ring (lb w)))) w
     else w).
Proof.
  unfold removeWorkerSupervisor, bind, this, assign, skip, ret.
  now destruct (0 <=? indexOf (ring (lb w)) ws)%Z.
Qed.

(** Case analysis on one turn of the event loop: the event, the state, and
    whatever else the handler looks at. *)
Ltac handler H :=
  simpl handle in H;
  rewrite ?fire_eq, ?handleError_eq in H;
  rewrite ?start_eq, ?stop_eq, ?addWorkerSupervisor_eq,
    ?removeWorkerSupervisor_eq, ?handleConnection_eq,
    ?forEachWorkerSupervisor_eq, ?handleListening_eq, ?handleClose_eq in H.

Ltac world w :=
  destruct w as [[?p ?ra ?rb ?a ?sv ?rd ?st ?ns ?r ?q ?h ?so] [?tr ?tm ?fr]].

Ltac cases H :=
  repeat (simpl in H; cbv [flushed registered gone rearmed] in H; simpl in H;
          first
            [ match type of H with
              | context [match ?x with _ => _ end] => is_var x; destruct x
              end
            | match type of H with
              | context [State_eqb ?x _] => is_var x; destruct x
              end
            | match type of H with
              | context [Nat.eqb (length (?x ++ _)) 0] => is_var x; destruct x
              end
            | match type of H with
              | context [Nat.eqb (length ?x) 0] => is_var x; destruct x
              end
            | match type of H with
              | context [match ?x with _ => _ end] => destruct x eqn:?
              end ]).

(** All the cases of [H : handle ev w = ...], each with the world the
    handler leaves written out. *)
Ltac outcomes H w :=
  handler H; world w; cases H;
  try (rewrite ?stop_eq, ?start_eq in H; cases H);
  simpl in *; try discriminate H.

(** ** Invariants of the event loop *)

Lemma reachable_run (evs : list Event) :
  forall w w', reachable w -> run evs w = Returned tt w' -> reachable w'.
Proof.
  induction evs as [|ev evs IH]; intros w w' Hw H.
  - injection H as <-; exact Hw.
  - unfold run in H; simpl in H; unfold bind in H.
    destruct (handle ev w) as [[] w1|] eqn:Hev; [|discriminate H].
    eapply IH; [|exact H]. eapply reach_step; eassumption.
Qed.

Lemma reachable_after (spec : Spec) (evs : list Event) :
  returned (run evs (constructed spec)) = true -> reachable (after spec evs).
Proof.
  unfold after; intro H.
  destruct (run evs (constructed spec)) as [[] w|] eqn:E; [|discriminate H].
  eapply reachable_run; [|exact E].
  apply reach_new with spec; reflexivity.
Qed.

(** Once constructed, the load balancer always has a server object. *)
Lemma server_step (w w' : World) (ev : Event) :
  handle ev w = Returned tt w' -> server (lb w) <> None -> server (lb w') <> None.
Proof.
  intros H Hsv. destruct ev; outcomes H w.
  all: injection H as <-; simpl; congruence.
Qed.

Lemma server_created (w : World) : reachable w -> server (lb w) <> None.
Proof.
  induction 1 as [spec w H | w w' ev _ IH H].
  - injection H as <-; discriminate.
  - eapply server_step; eassumption.
Qed.

(** *** The backlog *)

Lemma backlog_step (w w' : World) (ev : Event) :
  handle ev w = Returned tt w' ->
  (state (lb w) = running -> ring (lb w) <> [] -> queue (lb w) = []) ->
  state (lb w') = running -> ring (lb w') <> [] -> queue (lb w') = [].
Proof.
  intros H Inv. destruct ev; outcomes H w.
  all: injection H as <-; simpl; intros Hs Hr;
    try discriminate Hs; try reflexivity; try (now apply Inv);
    try (apply Inv; [reflexivity|discriminate]).
  all: try (now elim Hr).
  apply Inv; [assumption|].
  intros ->; apply Hr; unfold splice1; now rewrite firstn_nil, skipn_nil.
Qed.

(** C4. Between any two events, a load balancer that is 'running' with a
    ring that is not empty has an empty queue. *)
Theorem backlog_empty_when_serving (w : World) :
  reachable w ->
  state (lb w) = running -> ring (lb w) <> [] -> queue (lb w) = [].
Proof.
  induction 1 as [spec w H | w w' ev _ IH H].
  - injection H as <-; discriminate.
  - eapply backlog_step; eassumption.
Qed.

Lemma backlog_empty_when_serving_witness :
  reachable (after example_spec [CONNECTION 5; ADD 1; LISTENING 7]) /\
  state (lb (after example_spec [CONNECTION 5; ADD 1; LISTENING 7])) = running /\
  ring (lb (after example_spec [CONNECTION 5; ADD 1; LISTENING 7])) <> [] /\
  queue (lb (after example_spec [CONNECTION 5; ADD 1; LISTENING 7])) = [].
Proof.
  assert (Hr : reachable (after example_spec [CONNECTION 5; ADD 1; LISTENING 7]))
    by (apply reachable_after; vm_compute; reflexivity).
  assert (Hs : state (lb (after example_spec [CONNECTION 5; ADD 1; LISTENING 7]))
               = running) by (vm_compute; reflexivity).
  assert (Hn : ring (lb (after example_spec [CONNECTION 5; ADD 1; LISTENING 7]))
               <> []) by (vm_compute; discriminate).
  repeat (split; [assumption|]).
  exact (backlog_empty_when_serving
           (after example_spec [CONNECTION 5; ADD 1; LISTENING 7]) Hr Hs Hn).
Defined.

(** *** The address *)

Ltac no_running_emitted :=
  repeat match goal with
         | H : _ \/ _ |- _ => destruct H
         | H : exists _, _ |- _ => destruct H
         | H : _ /\ _ |- _ => destruct H
         | H : False |- _ => destruct H
         | H : _ = Emit running |- _ => discriminate H
         end.

Lemma address_step (w w' : World) (ev : Event) :
  handle ev w = Returned tt w' ->
  (address (lb w) <> None <-> In (Emit running) (trace (rt w))) /\
  (state (lb w) = running -> address (lb w) <> None) ->
  (address (lb w') <> None <-> In (Emit running) (trace (rt w'))) /\
  (state (lb w') = running -> address (lb w') <> None).
Proof.
  intros H [Inv1 Inv2]. destruct ev; outcomes H w.
  all: injection H as <-; simpl.
  all: rewrite ?in_app_iff; simpl; rewrite ?in_app_iff, ?in_map_iff; simpl.
  all: split;
    [ split;
      [ intro Ha; first [ left; tauto | right; now left | tauto ]
      | intro Hin; no_running_emitted;
        first [ tauto | discriminate | intuition congruence ] ]
    | first [ discriminate | tauto | intuition congruence ] ].
Qed.

(** C2, as stated, fails in both directions.  A [stop()] right after the
    constructor leaves 'stopping' with [address] still [null]; and
    [address], set when the server listens, is still set in 'standby' after
    the server closed. *)
Lemma address_iff_state_fails :
  reachable (after example_spec [STOP None]) /\
  ~ address_iff_state (after example_spec [STOP None]) /\
  reachable (after example_spec [LISTENING 7; CLOSE]) /\
  ~ address_iff_state (after example_spec [LISTENING 7; CLOSE]).
Proof.
  split; [apply reachable_after; vm_compute; reflexivity|].
  split; [intros [_ H]; apply H; [now right|reflexivity]|].
  split; [apply reachable_after; vm_compute; reflexivity|].
  intros [H _]; destruct H as [H|H]; discriminate.
Qed.

(** C2, amended.  [address] is set exactly from the first time the load
    balancer enters 'running' and is never reset: between any two events it
    is set if and only if 'running' has been entered since construction;
    hence it is set whenever the state is 'running'. *)
Theorem address_set_once_running (w : World) :
  reachable w ->
  (address (lb w) <> None <-> In (Emit running) (trace (rt w))) /\
  (state (lb w) = running -> address (lb w) <> None).
Proof.
  induction 1 as [spec w H | w w' ev _ IH H].
  - injection H as <-; simpl; split; [|discriminate].
    split; [intro Ha; now elim Ha|].
    intro Hin; no_running_emitted.
  - eapply address_step; eassumption.
Qed.

Lemma address_set_once_running_witness :
  reachable (after example_spec [LISTENING 7]) /\
  (address (lb (after example_spec [LISTENING 7])) <> None <->
   In (Emit running) (trace (rt (after example_spec [LISTENING 7])))) /\
  (state (lb (after example_spec [LISTENING 7])) = running ->
   address (lb (after example_spec [LISTENING 7])) <> None).
Proof.
  assert (Hr : reachable (after example_spec [LISTENING 7]))
    by (apply reachable_after; vm_compute; reflexivity).
  split; [exact Hr|].
  exact (address_set_once_running (after example_spec [LISTENING 7]) Hr).
Defined.

(** *** The ring *)

Lemma turn_perm (n : nat) : forall r, Permutation r (turn n r).
Proof.
  induction n as [|n IH]; intros [|ws rest]; simpl; try reflexivity.
  rewrite <- IH. apply Permutation_cons_append.
Qed.

Lemma NoDup_splice1 (i : Z) (l : list nat) : NoDup l -> NoDup (splice1 i l).
Proof.
  unfold splice1; intro H.
  rewrite <- (firstn_skipn (Z.to_nat i) l) in H.
  change (S (Z.to_nat i)) with (1 + Z.to_nat i).
  rewrite <- skipn_skipn.
  destruct (skipn (Z.to_nat i) l) as [|x t]; simpl.
  - exact H.
  - eapply NoDup_remove_1; exact H.
Qed.

(** The ring after one turn of the event loop, up to rotation. *)
Lemma ring_after (ev : Event) (w : World) :
  Permutation
    (match ev with
     | ADD ws => ring (lb w) ++ [ws]
     | REMOVE ws =>
         if (0 <=? indexOf (ring (lb w)) ws)%Z
         then splice1 (indexOf (ring (lb w)) ws) (ring (lb w))
         else ring (lb w)
     | _ => ring (lb w)
     end)
    (ring (lb (world_of (handle ev w)))).
Proof.
  remember (handle ev w) as o eqn:H.
  destruct ev; outcomes H w.
  all: subst o; simpl; rewrite ?Heqb; try reflexivity.
  all: try apply turn_perm.
  all: try apply Permutation_cons_append.
Qed.

Lemma fresh_not_in (ws : Worker) (r : list Worker) :
  negb (existsb (Nat.eqb ws) r) = true -> ~ In ws r.
Proof.
  intros H Hin.
  assert (E : existsb (Nat.eqb ws) r = true)
    by (apply existsb_exists; exists ws; split; [exact Hin|apply Nat.eqb_refl]).
  now rewrite E in H.
Qed.

Lemma ring_unique_step (ev : Event) (w : World) :
  NoDup (ring (lb w)) ->
  adds_fresh [ev] w = true ->
  NoDup (ring (lb (world_of (handle ev w)))).
Proof.
  intros Hnd Hfresh.
  apply (Permutation_NoDup (ring_after ev w)).
  destruct ev; try exact Hnd.
  - simpl in Hfresh; apply andb_prop in Hfresh as [Hfresh _].
    apply fresh_not_in in Hfresh.
    apply (Permutation_NoDup (Permutation_cons_append _ _)).
    now constructor.
  - destruct (0 <=? _)%Z; [now apply NoDup_splice1|exact Hnd].
Qed.

Lemma ring_unique_run (evs : list Event) :
  forall w, NoDup (ring (lb w)) -> adds_fresh evs w = true ->
  NoDup (ring (lb (world_of (run evs w)))).
Proof.
  induction evs as [|ev evs IH]; intros w Hnd Hfresh; [exact Hnd|].
  assert (Hstep : NoDup (ring (lb (world_of (handle ev w))))).
  { apply ring_unique_step; [exact Hnd|].
    simpl in Hfresh |- *. apply andb_prop in Hfresh as [H1 _].
    rewrite H1; now destruct (handle ev w). }
  simpl in Hfresh; apply andb_prop in Hfresh as [_ Hrest].
  unfold run; simpl; unfold bind.
  destruct (handle ev w) as [[] w1|e w1]; simpl in Hstep |- *.
  - now apply IH.
  - exact Hstep.
Qed.

(** C1, as stated, fails: [addWorkerSupervisor] pushes without looking, so
    the same worker added twice is in the ring twice. *)
Lemma ring_unique_fails :
  reachable (after example_spec [ADD 1; ADD 1]) /\
  ring (lb (after example_spec [ADD 1; ADD 1])) = [1; 1] /\
  ~ NoDup (ring (lb (after example_spec [ADD 1; ADD 1]))).
Proof.
  split; [apply reachable_after; vm_compute; reflexivity|].
  split; [reflexivity|].
  intro H; inversion H as [|x l Hin _]; subst.
  apply Hin; now left.
Qed.

(** C1, amended.  The ring holds no worker twice as long as every
    [addWorkerSupervisor] is given a worker that is not in the ring at the
    time: from a ring without duplicates, after every such run of events,
    returned or thrown, the ring has no duplicates.  The method itself never
    refuses: each call adds exactly one occurrence of its argument. *)
Theorem ring_unique_if_adds_fresh :
  (forall evs w,
     NoDup (ring (lb w)) -> adds_fresh evs w = true ->
     NoDup (ring (lb (world_of (run evs w))))) /\
  (forall ws w,
     count_occ Nat.eq_dec (ring (lb (world_of (addWorkerSupervisor ws w)))) ws =
     S (count_occ Nat.eq_dec (ring (lb w)) ws)).
Proof.
  split; [exact ring_unique_run|].
  intros ws w.
  change (addWorkerSupervisor ws w) with (handle (ADD ws) w).
  rewrite <- (proj1 (Permutation_count_occ Nat.eq_dec _ _) (ring_after (ADD ws) w) ws).
  rewrite count_occ_app, (count_occ_cons_eq Nat.eq_dec [] (eq_refl ws)).
  rewrite count_occ_nil; lia.
Qed.

Lemma ring_unique_if_adds_fresh_witness :
  NoDup (ring (lb (constructed example_spec))) /\
  adds_fresh [ADD 1; ADD 2; LISTENING 7; CONNECTION 5; REMOVE 1; ADD 1]
             (constructed example_spec) = true /\
  NoDup (ring (lb (after example_spec
                     [ADD 1; ADD 2; LISTENING 7; CONNECTION 5; REMOVE 1; ADD 1]))).
Proof.
  assert (H0 : NoDup (ring (lb (constructed example_spec)))) by constructor.
  assert (H1 : adds_fresh [ADD 1; ADD 2; LISTENING 7; CONNECTION 5; REMOVE 1; ADD 1]
                          (constructed example_spec) = true)
    by (vm_compute; reflexivity).
  split; [exact H0|]. split; [exact H1|].
  exact (proj1 ring_unique_if_adds_fresh
           [ADD 1; ADD 2; LISTENING 7; CONNECTION 5; REMOVE 1; ADD 1]
           (constructed example_spec) H0 H1).
Defined.

(** ** Errors of the server *)

(** C8. An 'error' event in 'running' calls [sendError(port, error)] once
    for every entry of the ring, in ring order, then closes the server and
    enters 'stopping'; in 'starting' it enters 'stopping' and calls no
    worker; in 'standby' the error is thrown and nothing but the log line
    has happened.  (In 'stopping' the workers are told as well and the
    state stays.) *)
Theorem handleError_semantics (e : Err) (w : World) :
  reachable w ->
  match state (lb w) with
  | running =>
      exists sv w',
        server (lb w) = Some sv /\
        handleError e w = Returned tt w' /\
        state (lb w') = stopping /\
        ring (lb w') = ring (lb w) /\
        trace (rt w') =
          trace (rt w)
            ++ Log error "supervisor failed to listen"
            :: map (fun ws => SendError ws (port (lb w)) e) (ring (lb w))
            ++ [ServerClose sv; Emit stopping; EmitStateChange stopping]
  | starting =>
      exists w',
        handleError e w = Returned tt w' /\
        state (lb w') = stopping /\
        ring (lb w') = ring (lb w) /\
        trace (rt w') =
          trace (rt w)
            ++ [Log error "supervisor failed to listen";
                Emit stopping; EmitStateChange stopping]
  | standby =>
      exists w',
        handleError e w = Thrown (ServerError e) w' /\
        lb w' = lb w /\
        trace (rt w') = trace (rt w) ++ [Log error "supervisor failed to listen"]
  | stopping =>
      exists w',
        handleError e w = Returned tt w' /\
        state (lb w') = stopping /\
        trace (rt w') =
          trace (rt w)
            ++ Log error "supervisor failed to listen"
            :: map (fun ws => SendError ws (port (lb w)) e) (ring (lb w))
  end.
Proof.
  intro Hw; apply server_created in Hw.
  rewrite handleError_eq.
  world w; simpl in Hw |- *.
  destruct sv as [sv|]; [clear Hw|now elim Hw].
  destruct st; rewrite ?stop_eq; simpl.
  - eexists; repeat split.
  - eexists; repeat split. simpl. now rewrite <- app_assoc.
  - exists sv; eexists; repeat split. simpl.
    rewrite <- !app_assoc; simpl; rewrite <- ?app_assoc; reflexivity.
  - eexists; repeat split.
Qed.

Lemma handleError_semantics_witness :
  reachable (after example_spec [ADD 1; ADD 2; LISTENING 7]) /\
  exists sv w',
    server (lb (after example_spec [ADD 1; ADD 2; LISTENING 7])) = Some sv /\
    handleError 9 (after example_spec [ADD 1; ADD 2; LISTENING 7]) = Returned tt w' /\
    state (lb w') = stopping /\
    ring (lb w') = [1; 2] /\
    trace (rt w') =
      trace (rt (after example_spec [ADD 1; ADD 2; LISTENING 7]))
        ++ [Log error "supervisor failed to listen";
            SendError 1 (Some 80) 9; SendError 2 (Some 80) 9;
            ServerClose sv; Emit stopping; EmitStateChange stopping].
Proof.
  assert (Hr : reachable (after example_spec [ADD 1; ADD 2; LISTENING 7]))
    by (apply reachable_after; vm_compute; reflexivity).
  split; [exact Hr|].
  exact (handleError_semantics 9 (after example_spec [ADD 1; ADD 2; LISTENING 7]) Hr).
Defined.

(** ** The restart timer *)

Lemma armed_last (t : Timer) (l : list Timer) : armed t (l ++ [t]) = true.
Proof.
  unfold armed; rewrite existsb_app; simpl.
  now rewrite Nat.eqb_refl, orb_true_r.
Qed.

Lemma armed_disarm (t : Timer) (l : list Timer) : armed t (disarm t l) = false.
Proof.
  unfold armed, disarm; induction l as [|x l IH]; simpl; [reflexivity|].
  destruct (Nat.eqb t x) eqn:E; simpl; [exact IH|now rewrite E].
Qed.

(** C9. [start()] in 'stopping' sets [nextState] and nothing else.  The
    'close' event then enters 'standby', arms one timer of [restartDelay]
    milliseconds, keeps its handle and clears [nextState].  When that timer
    fires, [start()] runs: the load balancer enters 'starting' and asks a
    new server to listen, and the next 'listening' event takes it to
    'running'.  The timer is then no longer armed. *)
Theorem restart_latching (w : World) (granted : Address) :
  state (lb w) = stopping ->
  exists w1 w2 w3 w4 t,
    start w = Returned tt w1 /\
    state (lb w1) = stopping /\ nextState (lb w1) = Some starting /\
    rt w1 = rt w /\
    handleClose w1 = Returned tt w2 /\
    state (lb w2) = standby /\ nextState (lb w2) = None /\
    restartTimeoutHandle (lb w2) = Some t /\
    timers (rt w2) = timers (rt w) ++ [t] /\
    trace (rt w2) =
      trace (rt w)
        ++ Emit standby :: map Invoke (standbyOnce (lb w))
        ++ [EmitStateChange standby;
            Log info "supervisor stopped listening on port";
            SetTimeout t (restartDelay (lb w))] /\
    fire t w2 = Returned tt w3 /\
    state (lb w3) = starting /\
    armed t (timers (rt w3)) = false /\
    listens (trace (rt w3)) = listens (trace (rt w2)) ++ [fresh (rt w2)] /\
    transitions (trace (rt w3)) = transitions (trace (rt w2)) ++ [starting] /\
    handleListening granted w3 = Returned tt w4 /\
    state (lb w4) = running /\
    transitions (trace (rt w4)) = transitions (trace (rt w3)) ++ [running].
Proof.
  intro Hs.
  world w; simpl in Hs; subst st.
  do 4 eexists; exists fr.
  split; [rewrite start_eq; reflexivity|]; simpl.
  do 3 (split; [reflexivity|]).
  split; [rewrite handleClose_eq; reflexivity|]; simpl.
  do 4 (split; [reflexivity|]).
  split; [now list_assoc|].
  split; [rewrite fire_eq; simpl; rewrite armed_last, start_eq; reflexivity|]; simpl.
  split; [reflexivity|].
  split; [apply armed_disarm|].
  split; [now observe|].
  split; [now observe|].
  split; [rewrite handleListening_eq; reflexivity|]; simpl.
  split; [unfold flushed; simpl; now destruct r|].
  unfold flushed; simpl.
  destruct r; simpl; now observe.
Qed.

Lemma restart_latching_witness :
  state (lb (after example_spec [LISTENING 7; STOP None])) = stopping /\
  exists w1 w2 w3 w4 t,
    start (after example_spec [LISTENING 7; STOP None]) = Returned tt w1 /\
    handleClose w1 = Returned tt w2 /\
    timers (rt w2) = [t] /\
    fire t w2 = Returned tt w3 /\
    armed t (timers (rt w3)) = false /\
    handleListening 8 w3 = Returned tt w4 /\
    state (lb w4) = running.
Proof.
  assert (Hs : state (lb (after example_spec [LISTENING 7; STOP None])) = stopping)
    by (vm_compute; reflexivity).
  split; [exact Hs|].
  destruct (restart_latching (after example_spec [LISTENING 7; STOP None]) 8 Hs)
    as (w1 & w2 & w3 & w4 & t & H1 & _ & _ & _ & H2 & _ & _ & _ & H3 & _ & H4 & _
        & H5 & _ & _ & H6 & H7 & _).
  exists w1, w2, w3, w4, t.
  repeat split; assumption.
Defined.

(** C3, as stated, fails: [stop()] never touches the timer.  After a
    restart was latched and the server closed, the timer it armed is still
    armed after [stop()], and when it fires the load balancer starts
    again. *)
Lemma stop_leaves_timer_armed :
  reachable (after example_spec [LISTENING 7; STOP None; START; CLOSE]) /\
  state (lb (after example_spec [LISTENING 7; STOP None; START; CLOSE])) = standby /\
  timers (rt (after example_spec [LISTENING 7; STOP None; START; CLOSE])) = [1] /\
  timers (rt (after example_spec [LISTENING 7; STOP None; START; CLOSE; STOP None]))
    = [1] /\
  state (lb (after example_spec
               [LISTENING 7; STOP None; START; CLOSE; STOP None; TIMEOUT 1]))
    = starting /\
  listens (trace (rt (after example_spec
               [LISTENING 7; STOP None; START; CLOSE; STOP None; TIMEOUT 1])))
    = [0; 2].
Proof.
  split; [apply reachable_after; vm_compute; reflexivity|].
  repeat split; vm_compute; reflexivity.
Qed.

(** C3, amended.  [stop()] does not cancel a restart timer: whatever the
    state, it leaves the armed timers and [restartTimeoutHandle] as they
    were.  So when a restart timer is armed in 'standby' and [stop()] is
    called before it fires, the call changes no state, the timer still
    fires, and firing it runs [start()]: the load balancer enters 'starting'
    and asks a new server to listen. *)
Theorem stop_keeps_restart_timer (callback : option Callback) (w : World) :
  timers (rt (world_of (stop callback w))) = timers (rt w) /\
  restartTimeoutHandle (lb (world_of (stop callback w))) =
    restartTimeoutHandle (lb w) /\
  forall t,
    state (lb w) = standby -> armed t (timers (rt w)) = true ->
    exists w1 w2,
      stop callback w = Returned tt w1 /\
      state (lb w1) = standby /\
      armed t (timers (rt w1)) = true /\
      fire t w1 = Returned tt w2 /\
      state (lb w2) = starting /\
      listens (trace (rt w2)) = listens (trace (rt w)) ++ [fresh (rt w)].
Proof.
  rewrite stop_eq.
  world w; simpl.
  split; [destruct callback, st, sv; reflexivity|].
  split; [destruct callback, st, sv; reflexivity|].
  intros t -> Ht.
  destruct callback as [cb|]; simpl; do 2 eexists.
  all: split; [reflexivity|].
  all: split; [reflexivity|].
  all: split; [exact Ht|].
  all: split; [rewrite fire_eq; simpl; rewrite Ht, start_eq; reflexivity|].
  all: split; [reflexivity|].
  all: simpl; now observe.
Qed.

Lemma stop_keeps_restart_timer_witness :
  state (lb (after example_spec [LISTENING 7; STOP None; START; CLOSE])) = standby /\
  armed 1 (timers (rt (after example_spec [LISTENING 7; STOP None; START; CLOSE])))
    = true /\
  exists w1 w2,
    stop (Some 4) (after example_spec [LISTENING 7; STOP None; START; CLOSE])
      = Returned tt w1 /\
    state (lb w1) = standby /\
    armed 1 (timers (rt w1)) = true /\
    fire 1 w1 = Returned tt w2 /\
    state (lb w2) = starting /\
    listens (trace (rt w2)) = [0; 2].
Proof.
  assert (Hs : state (lb (after example_spec [LISTENING 7; STOP None; START; CLOSE]))
               = standby) by (vm_compute; reflexivity).
  assert (Ht : armed 1 (timers (rt (after example_spec
                 [LISTENING 7; STOP None; START; CLOSE]))) = true)
    by (vm_compute; reflexivity).
  split; [exact Hs|]. split; [exact Ht|].
  exact (proj2 (proj2 (stop_keeps_restart_timer (Some 4)
           (after example_spec [LISTENING 7; STOP None; START; CLOSE]))) 1 Hs Ht).
Defined.

(** ** Stopping while starting *)

Lemma traffic_step (ev : Event) (w : World) :
  traffic ev = true -> state (lb w) <> running ->
  exists w', handle ev w = Returned tt w' /\ quiet w w'.
Proof.
  intros Hev Hs; unfold quiet.
  destruct ev; try discriminate Hev; simpl handle;
    rewrite ?addWorkerSupervisor_eq, ?removeWorkerSupervisor_eq,
      ?handleConnection_eq, ?forEachWorkerSupervisor_eq;
    eexists; (split; [reflexivity|]); world w; simpl in Hs |- *.
  - destruct st; try (now elim Hs); simpl; repeat split; now observe.
  - destruct (0 <=? _)%Z; simpl; repeat split.
  - repeat split; now observe.
  - destruct st; try (now elim Hs); simpl; repeat split; now observe.
Qed.

Lemma traffic_run (evs : list Event) :
  forallb traffic evs = true ->
  forall w, state (lb w) <> running ->
  exists w', run evs w = Returned tt w' /\ quiet w w'.
Proof.
  induction evs as [|ev evs IH]; intros Hevs w Hs.
  - exists w; split; [reflexivity|]. now repeat split.
  - simpl in Hevs; apply andb_prop in Hevs as [Hev Hevs].
    destruct (traffic_step ev w Hev Hs) as (w1 & H1 & Q1).
    destruct (IH Hevs w1) as (w2 & H2 & Q2).
    { destruct Q1 as [E _]; now rewrite E. }
    exists w2; split.
    + unfold run; simpl; unfold bind; now rewrite H1.
    + unfold quiet in *; intuition congruence.
Qed.

Lemma handleClose_stopping (w : World) :
  state (lb w) = stopping ->
  exists w',
    handleClose w = Returned tt w' /\
    state (lb w') = standby /\
    closes (trace (rt w')) = closes (trace (rt w)) /\
    dispatched (trace (rt w')) = dispatched (trace (rt w)) /\
    transitions (trace (rt w')) = transitions (trace (rt w)) ++ [standby].
Proof.
  intro Hs; rewrite handleClose_eq, Hs.
  eexists; split; [reflexivity|].
  world w; simpl.
  destruct ns as [[]|]; simpl; repeat split; now observe.
Qed.

(** C7. [stop()] in 'starting' enters 'stopping' and does not close the
    server.  Whatever connections and ring changes follow, nothing is
    closed and no connection is dispatched until the 'listening' event,
    which closes the server, once, and leaves the state 'stopping'; and
    again nothing is closed or dispatched until the 'close' event, which
    enters 'standby'.  Over the whole episode the server is closed exactly
    once, the states entered are 'stopping' then 'standby', and no
    connection reaches a worker. *)
Theorem stop_during_starting
    (w : World) (callback : option Callback) (granted : Address)
    (evs1 evs2 : list Event) :
  reachable w -> state (lb w) = starting ->
  forallb traffic evs1 = true -> forallb traffic evs2 = true ->
  exists sv w1 w2 w3 w4 w5,
    server (lb w) = Some sv /\
    stop callback w = Returned tt w1 /\
    state (lb w1) = stopping /\
    closes (trace (rt w1)) = closes (trace (rt w)) /\
    run evs1 w1 = Returned tt w2 /\
    state (lb w2) = stopping /\
    closes (trace (rt w2)) = closes (trace (rt w)) /\
    handleListening granted w2 = Returned tt w3 /\
    state (lb w3) = stopping /\
    closes (trace (rt w3)) = closes (trace (rt w)) ++ [sv] /\
    run evs2 w3 = Returned tt w4 /\
    state (lb w4) = stopping /\
    handleClose w4 = Returned tt w5 /\
    state (lb w5) = standby /\
    closes (trace (rt w5)) = closes (trace (rt w)) ++ [sv] /\
    transitions (trace (rt w5)) = transitions (trace (rt w)) ++ [stopping; standby] /\
    dispatched (trace (rt w5)) = dispatched (trace (rt w)).
Proof.
  intros Hw Hs Hevs1 Hevs2.
  apply server_created in Hw.
  destruct (server (lb w)) as [sv|] eqn:Hsv; [clear Hw|now elim Hw].
  (* stop() *)
  assert (S1 : exists w1, stop callback w = Returned tt w1 /\
                 state (lb w1) = stopping /\ server (lb w1) = Some sv /\
                 closes (trace (rt w1)) = closes (trace (rt w)) /\
                 dispatched (trace (rt w1)) = dispatched (trace (rt w)) /\
                 transitions (trace (rt w1)) = transitions (trace (rt w)) ++ [stopping]).
  { rewrite stop_eq, Hs. eexists; split; [reflexivity|].
    world w; simpl in Hs, Hsv |- *; subst.
    destruct callback; simpl; repeat split; now observe. }
  destruct S1 as (w1 & H1 & Hs1 & Hsv1 & C1 & D1 & T1).
  (* traffic before the server listens *)
  destruct (traffic_run evs1 Hevs1 w1) as (w2 & H2 & Hs2 & Hsv2 & _ & C2 & D2 & T2);
    [rewrite Hs1; discriminate|].
  rewrite Hs1 in Hs2; rewrite Hsv1 in Hsv2.
  (* 'listening' *)
  assert (S3 : exists w3, handleListening granted w2 = Returned tt w3 /\
                 state (lb w3) = stopping /\
                 closes (trace (rt w3)) = closes (trace (rt w2)) ++ [sv] /\
                 dispatched (trace (rt w3)) = dispatched (trace (rt w2)) /\
                 transitions (trace (rt w3)) = transitions (trace (rt w2))).
  { rewrite handleListening_eq, Hs2, Hsv2. eexists; split; [reflexivity|].
    world w2; simpl in Hs2 |- *. repeat split; try assumption; now observe. }
  destruct S3 as (w3 & H3 & Hs3 & C3 & D3 & T3).
  (* traffic before the server closes *)
  destruct (traffic_run evs2 Hevs2 w3) as (w4 & H4 & Hs4 & _ & _ & C4 & D4 & T4);
    [rewrite Hs3; discriminate|].
  rewrite Hs3 in Hs4.
  (* 'close' *)
  destruct (handleClose_stopping w4 Hs4) as (w5 & H5 & Hs5 & C5 & D5 & T5).
  exists sv, w1, w2, w3, w4, w5.
  repeat split; try assumption; try congruence.
  rewrite T5, T4, T3, T2, T1, <- app_assoc; reflexivity.
Qed.

Lemma stop_during_starting_witness :
  reachable (constructed example_spec) /\
  state (lb (constructed example_spec)) = starting /\
  forallb traffic [CONNECTION 5; ADD 1] = true /\
  forallb traffic [CONNECTION 6] = true /\
  exists w1 w2 w3 w4 w5,
    stop None (constructed example_spec) = Returned tt w1 /\
    run [CONNECTION 5; ADD 1] w1 = Returned tt w2 /\
    handleListening 7 w2 = Returned tt w3 /\
    run [CONNECTION 6] w3 = Returned tt w4 /\
    handleClose w4 = Returned tt w5 /\
    state (lb w5) = standby /\
    closes (trace (rt w5)) = [0] /\
    transitions (trace (rt w5)) = [starting; stopping; standby] /\
    dispatched (trace (rt w5)) = [].
Proof.
  assert (Hr : reachable (constructed example_spec))
    by (apply reach_new with example_spec; reflexivity).
  assert (Hs : state (lb (constructed example_spec)) = starting) by reflexivity.
  assert (Ht1 : forallb traffic [CONNECTION 5; ADD 1] = true) by reflexivity.
  assert (Ht2 : forallb traffic [CONNECTION 6] = true) by reflexivity.
  repeat (split; [assumption|]).
  destruct (stop_during_starting (constructed example_spec) None 7
              [CONNECTION 5; ADD 1] [CONNECTION 6] Hr Hs Ht1 Ht2)
    as (sv & w1 & w2 & w3 & w4 & w5 & Hsv & H1 & _ & _ & H2 & _ & _ & H3 & _ & _
        & H4 & _ & H5 & Hs5 & C5 & T5 & D5).
  injection Hsv as <-.
  exists w1, w2, w3, w4, w5; repeat split; assumption.
Defined.

(** ** Round robin *)

(** Division and remainder of a successor. *)
Lemma succ_div_mod (m n : nat) :
  0 < n ->
  (S (m mod n) < n /\ S m / n = m / n /\ S m mod n = S (m mod n)) \/
  (S (m mod n) = n /\ S m / n = S (m / n) /\ S m mod n = 0).
Proof.
  intro Hn.
  pose proof (Nat.div_mod_eq m n) as E.
  pose proof (Nat.mod_upper_bound m n ltac:(lia)) as U.
  destruct (Nat.eq_dec (S (m mod n)) n) as [Heq|Hne]; [right|left].
  - split; [exact Heq|].
    split; symmetry.
    + apply (Nat.div_unique (S m) n (S (m / n)) 0); nia.
    + apply (Nat.mod_unique (S m) n (S (m / n)) 0); nia.
  - split; [lia|].
    split; symmetry.
    + apply (Nat.div_unique (S m) n (m / n) (S (m mod n))); nia.
    + apply (Nat.mod_unique (S m) n (m / n) (S (m mod n))); nia.
Qed.

(** One rotation moves every position one step towards the head. *)
Lemma nth_rotated (ws : nat) (rest : list nat) (i : nat) :
  nth (i mod length (ws :: rest)) (rest ++ [ws]) 0 =
  nth (S i mod length (ws :: rest)) (ws :: rest) 0.
Proof.
  destruct (succ_div_mod i (length (ws :: rest))) as [(H & _ & E)|(H & _ & E)];
    [simpl; lia| |]; rewrite E.
  - simpl in H |- *. rewrite app_nth1 by lia. reflexivity.
  - simpl in H |- *. injection H as H. rewrite app_nth2 by lia.
    rewrite H, Nat.sub_diag. reflexivity.
Qed.

(** Position by position: the connection at index [i] goes to the ring
    entry at index [i mod n]. *)
Lemma deal_nth (cs : list nat) :
  forall r, r <> [] ->
  deal r cs =
    map (fun i => (nth (i mod length r) r 0, nth i cs 0)) (seq 0 (length cs)).
Proof.
  induction cs as [|c cs IH]; intros [|ws rest] Hr; try (now elim Hr);
    [reflexivity|].
  simpl deal. rewrite IH by (now destruct rest).
  change (length (c :: cs)) with (S (length cs)).
  cbn [seq]. rewrite <- seq_shift. cbn [map]. rewrite map_map.
  f_equal.
  - rewrite Nat.Div0.mod_0_l. reflexivity.
  - apply map_ext; intro i.
    replace (length (rest ++ [ws])) with (length (ws :: rest))
      by (rewrite length_app; simpl; lia).
    now rewrite nth_rotated.
Qed.

(** How often the entry at one position of a ring without duplicates comes
    up in [m] consecutive dispatches. *)
Lemma count_turns (r : list nat) (ws : nat) (m : nat) :
  NoDup r -> In ws r ->
  m / length r
    <= count_occ Nat.eq_dec (map (fun i => nth (i mod length r) r 0) (seq 0 m)) ws
    <= S (m / length r).
Proof.
  intros Hnd Hin.
  destruct (In_nth r ws 0 Hin) as (p & Hp & Hnth).
  assert (Hn : 0 < length r) by lia.
  set (n := length r) in *.
  assert (E : count_occ Nat.eq_dec (map (fun i => nth (i mod n) r 0) (seq 0 m)) ws
              = m / n + (if p <? m mod n then 1 else 0)).
  { induction m as [|m IH].
    - rewrite Nat.Div0.div_0_l, Nat.Div0.mod_0_l; reflexivity.
    - rewrite seq_S, map_app, count_occ_app, IH; simpl.
      pose proof (Nat.mod_upper_bound m n ltac:(lia)) as U.
      assert (Hpos : nth (m mod n) r 0 = ws <-> m mod n = p).
      { split; [|now intros ->].
        intro H; rewrite <- Hnth in H.
        exact (proj1 (NoDup_nth r 0) Hnd _ _ U Hp H). }
      destruct (Nat.eq_dec (nth (m mod n) r 0) ws) as [Heq|Hne];
        [apply Hpos in Heq|rewrite Hpos in Hne];
        destruct (succ_div_mod m n Hn) as [(H1 & H2 & H3)|(H1 & H2 & H3)];
        rewrite H2, H3;
        destruct (Nat.ltb_spec p (m mod n));
        try destruct (Nat.ltb_spec p (S (m mod n)));
        try destruct (Nat.ltb_spec p 0); lia. }
  rewrite E; destruct (p <? m mod n); lia.
Qed.

Lemma dispatched_hand (p : option nat) (l : list (nat * nat)) :
  dispatched (map (hand p) l) = l.
Proof.
  induction l as [|[ws c] l IH]; [reflexivity|].
  change (dispatched (map (hand p) ((ws, c) :: l)))
    with ((ws, c) :: dispatched (map (hand p) l)).
  now rewrite IH.
Qed.

Lemma dispatched_app (a b : list Effect) :
  dispatched (a ++ b) = dispatched a ++ dispatched b.
Proof. apply flat_map_app. Qed.

(** A run of connections over a running load balancer whose ring is not
    empty. *)
Lemma run_connections_running (cs : list nat) (w : World) :
  state (lb w) = running -> ring (lb w) <> [] ->
  exists w',
    run (map CONNECTION cs) w = Returned tt w' /\
    state (lb w') = running /\
    queue (lb w') = queue (lb w) /\
    ring (lb w') = turn (length cs) (ring (lb w)) /\
    dispatched (trace (rt w')) =
      dispatched (trace (rt w)) ++ deal (ring (lb w)) cs.
Proof.
  intros Hs Hr.
  rewrite run_connections, dispatch_loop by assumption.
  eexists; split; [reflexivity|].
  world w; simpl in Hs |- *.
  repeat split; [assumption|].
  now rewrite dispatched_app, dispatched_hand.
Qed.

(** C5. A 'connection' event on a running load balancer whose ring is not
    empty moves the head of the ring to its tail and hands the connection to
    that worker; otherwise the connection joins the queue and no worker is
    called.  So over a running load balancer with a ring [r] of [n] entries
    that only receives connections, the [k]-th connection goes to the entry
    at position [(k - 1) mod n] of [r]; and when the [n] entries are [n]
    different workers, each of them gets [m / n] or [m / n + 1] of any [m]
    connections. *)
Theorem round_robin_dispatch :
  (forall c w,
     exists w',
       handleConnection c w = Returned tt w' /\
       state (lb w') = state (lb w) /\
       match State_eqb (state (lb w)) running, ring (lb w) with
       | true, ws :: rest =>
           ring (lb w') = rest ++ [ws] /\
           queue (lb w') = queue (lb w) /\
           trace (rt w') = trace (rt w) ++ [HandleConnection ws (port (lb w)) c]
       | _, _ =>
           ring (lb w') = ring (lb w) /\
           queue (lb w') = queue (lb w) ++ [c] /\
           trace (rt w') = trace (rt w) ++ [Log info "connection backlog"]
       end) /\
  (forall cs w,
     state (lb w) = running -> ring (lb w) <> [] ->
     exists w',
       run (map CONNECTION cs) w = Returned tt w' /\
       state (lb w') = running /\
       queue (lb w') = queue (lb w) /\
       ring (lb w') = turn (length cs) (ring (lb w)) /\
       dispatched (trace (rt w')) =
         dispatched (trace (rt w))
           ++ map (fun k => (nth ((k - 1) mod length (ring (lb w))) (ring (lb w)) 0,
                             nth (k - 1) cs 0))
                  (seq 1 (length cs))) /\
  (forall cs w ws,
     state (lb w) = running -> NoDup (ring (lb w)) -> In ws (ring (lb w)) ->
     exists w' got,
       run (map CONNECTION cs) w = Returned tt w' /\
       received ws (trace (rt w')) = received ws (trace (rt w)) + got /\
       length cs / length (ring (lb w)) <= got <= length cs / length (ring (lb w)) + 1).
Proof.
  split; [|split].
  - intros c w. rewrite handleConnection_eq.
    eexists; split; [reflexivity|].
    world w; simpl. destruct st, r; simpl; repeat split.
  - intros cs w Hs Hr.
    destruct (run_connections_running cs w Hs Hr) as (w' & H & Hs' & Hq & Hring & Hd).
    exists w'; repeat split; try assumption.
    rewrite Hd, deal_nth by assumption.
    rewrite <- seq_shift, map_map. f_equal.
    apply map_ext; intro i. now rewrite Nat.sub_succ, Nat.sub_0_r.
  - intros cs w ws Hs Hnd Hin.
    assert (Hr : ring (lb w) <> []) by (intro E; rewrite E in Hin; exact Hin).
    destruct (run_connections_running cs w Hs Hr) as (w' & H & _ & _ & _ & Hd).
    exists w', (count_occ Nat.eq_dec (map fst (deal (ring (lb w)) cs)) ws).
    split; [exact H|].
    split; [unfold received; now rewrite Hd, map_app, count_occ_app|].
    rewrite deal_nth, map_map by assumption; simpl.
    rewrite Nat.add_1_r. now apply count_turns.
Qed.

Lemma round_robin_dispatch_witness :
  state (lb (after example_spec [ADD 1; ADD 2; ADD 3; LISTENING 7])) = running /\
  NoDup (ring (lb (after example_spec [ADD 1; ADD 2; ADD 3; LISTENING 7]))) /\
  In 2 (ring (lb (after example_spec [ADD 1; ADD 2; ADD 3; LISTENING 7]))) /\
  exists w' got,
    run (map CONNECTION [10; 11; 12; 13; 14; 15; 16])
        (after example_spec [ADD 1; ADD 2; ADD 3; LISTENING 7]) = Returned tt w' /\
    received 2 (trace (rt w')) = 0 + got /\
    2 <= got <= 3.
Proof.
  assert (Hs : state (lb (after example_spec [ADD 1; ADD 2; ADD 3; LISTENING 7]))
               = running) by (vm_compute; reflexivity).
  assert (Hnd : NoDup (ring (lb (after example_spec
                  [ADD 1; ADD 2; ADD 3; LISTENING 7])))).
  { vm_compute. repeat constructor; simpl; intuition discriminate. }
  assert (Hin : In 2 (ring (lb (after example_spec
                  [ADD 1; ADD 2; ADD 3; LISTENING 7])))).
  { vm_compute. right; left; reflexivity. }
  repeat (split; [assumption|]).
  exact (proj2 (proj2 round_robin_dispatch)
           [10; 11; 12; 13; 14; 15; 16]
           (after example_spec [ADD 1; ADD 2; ADD 3; LISTENING 7]) 2 Hs Hnd Hin).
Defined.

(** * Further properties of the methods *)

(** ** Removing a worker *)

Lemma indexOf_from_cases (x : nat) (l : list nat) :
  forall i,
    (~ In x l /\ indexOf_from i l x = (-1)%Z) \/
    (exists l1 l2, l = l1 ++ x :: l2 /\ ~ In x l1 /\
                   indexOf_from i l x = (i + Z.of_nat (length l1))%Z).
Proof.
  induction l as [|y l IH]; intro i; simpl.
  - left; split; [tauto|reflexivity].
  - destruct (Nat.eqb_spec y x) as [->|Hne].
    + right; exists [], l; simpl; repeat split; [tauto|lia].
    + destruct (IH (i + 1)%Z) as [[Hn E]|(l1 & l2 & -> & Hn & E)].
      * left; split; [intros [H|H]; tauto|exact E].
      * right; exists (y :: l1), l2; simpl; repeat split.
        -- intros [H|H]; tauto.
        -- rewrite E; lia.
Qed.

Lemma splice1_middle (x : nat) (l1 l2 : list nat) :
  splice1 (Z.of_nat (length l1)) (l1 ++ x :: l2) = l1 ++ l2.
Proof.
  unfold splice1; rewrite Nat2Z.id.
  induction l1 as [|a l1 IH]; [reflexivity|].
  change (a :: (firstn (length l1) (l1 ++ x :: l2)
                  ++ skipn (S (length l1)) (l1 ++ x :: l2)) = a :: (l1 ++ l2)).
  now rewrite IH.
Qed.

Lemma removeWorkerSupervisor_absent (ws : nat) (w : World) :
  ~ In ws (ring (lb w)) -> removeWorkerSupervisor ws w = Returned tt w.
Proof.
  intro Hn; rewrite removeWorkerSupervisor_eq; unfold indexOf.
  destruct (indexOf_from_cases ws (ring (lb w)) 0) as [[_ E]|(l1 & l2 & E & _)].
  - now rewrite E.
  - elim Hn; rewrite E; apply in_or_app; right; now left.
Qed.

Lemma removeWorkerSupervisor_present (ws : nat) (l1 l2 : list nat) (w : World) :
  ring (lb w) = l1 ++ ws :: l2 -> ~ In ws l1 ->
  removeWorkerSupervisor ws w = Returned tt (upd (set_ring (l1 ++ l2)) w).
Proof.
  intros E Hn; rewrite removeWorkerSupervisor_eq; unfold indexOf.
  destruct (indexOf_from_cases ws (ring (lb w)) 0)
    as [[Hout _]|(k1 & k2 & E' & Hn' & Ei)].
  - elim Hout; rewrite E; apply in_or_app; right; now left.
  - assert (k1 = l1 /\ k2 = l2) as [-> ->].
    { rewrite E in E'. clear - E' Hn Hn'.
      revert k1 E' Hn'; induction l1 as [|a l1 IH]; intros [|b k1] E' Hn'; simpl in *.
      - injection E' as ->; now split.
      - injection E' as <- _; elim Hn'; now left.
      - injection E' as -> _; elim Hn; now left.
      - injection E' as <- E'.
        destruct (IH (fun H => Hn (or_intror H)) k1 E' (fun H => Hn' (or_intror H)))
          as [-> ->]; now split. }
    rewrite Ei, E; simpl Z.add.
    destruct (Z.leb_spec 0 (Z.of_nat (length l1))); [|lia].
    now rewrite splice1_middle.
Qed.

Lemma remove_first_cases (ws : nat) (w : World) :
  (~ In ws (ring (lb w)) /\ removeWorkerSupervisor ws w = Returned tt w) \/
  (exists l1 l2,
     ring (lb w) = l1 ++ ws :: l2 /\ ~ In ws l1 /\
     removeWorkerSupervisor ws w = Returned tt (upd (set_ring (l1 ++ l2)) w)).
Proof.
  destruct (indexOf_from_cases ws (ring (lb w)) 0) as [[Hn _]|(l1 & l2 & E & Hn & _)].
  - left; split; [exact Hn|now apply removeWorkerSupervisor_absent].
  - right; exists l1, l2; repeat split; try assumption.
    now apply removeWorkerSupervisor_present.
Qed.

(** X1. [removeWorkerSupervisor] never throws and makes no call.  When the
    worker is not in the ring it changes nothing; otherwise it takes out
    the first occurrence of the worker and nothing else: the other entries
    keep their order and every other field keeps its value. *)
Theorem remove_first_occurrence (ws : nat) (w : World) :
  (~ In ws (ring (lb w)) /\ removeWorkerSupervisor ws w = Returned tt w) \/
  (exists l1 l2,
     ring (lb w) = l1 ++ ws :: l2 /\ ~ In ws l1 /\
     removeWorkerSupervisor ws w = Returned tt (upd (set_ring (l1 ++ l2)) w)).
Proof. exact (remove_first_cases ws w). Qed.

Lemma remove_from_unique (ws : nat) (w : World) :
  NoDup (ring (lb w)) ->
  exists w', removeWorkerSupervisor ws w = Returned tt w' /\
             ~ In ws (ring (lb w')) /\ NoDup (ring (lb w')).
Proof.
  intro Hnd.
  destruct (indexOf_from_cases ws (ring (lb w)) 0) as [[Hn _]|(l1 & l2 & E & Hn & _)].
  - exists w; repeat split; [now apply removeWorkerSupervisor_absent|exact Hn|exact Hnd].
  - exists (upd (set_ring (l1 ++ l2)) w).
    split; [now apply removeWorkerSupervisor_present|].
    rewrite E in Hnd; simpl.
    split; [exact (NoDup_remove_2 _ _ _ Hnd)|exact (NoDup_remove_1 _ _ _ Hnd)].
Qed.

(** X2. The worker is removed early, when it is told to stop, and again
    when it is confirmed closed: on a ring without duplicates the first
    removal leaves the worker out of the ring and the second one changes
    nothing. *)
Theorem remove_twice (ws : nat) (w : World) :
  NoDup (ring (lb w)) ->
  exists w',
    removeWorkerSupervisor ws w = Returned tt w' /\
    ~ In ws (ring (lb w')) /\
    removeWorkerSupervisor ws w' = Returned tt w' /\
    run [REMOVE ws; REMOVE ws] w = Returned tt w'.
Proof.
  intro Hnd.
  destruct (remove_from_unique ws w Hnd) as (w' & H & Hn & _).
  exists w'; repeat split; try assumption.
  - now apply removeWorkerSupervisor_absent.
  - unfold run; simpl; unfold bind; rewrite H.
    now rewrite removeWorkerSupervisor_absent.
Qed.

Lemma remove_twice_witness :
  NoDup (ring (lb (after example_spec [ADD 1; ADD 2; ADD 3]))) /\
  exists w',
    removeWorkerSupervisor 2 (after example_spec [ADD 1; ADD 2; ADD 3])
      = Returned tt w' /\
    ~ In 2 (ring (lb w')) /\
    removeWorkerSupervisor 2 w' = Returned tt w' /\
    run [REMOVE 2; REMOVE 2] (after example_spec [ADD 1; ADD 2; ADD 3])
      = Returned tt w'.
Proof.
  assert (Hnd : NoDup (ring (lb (after example_spec [ADD 1; ADD 2; ADD 3])))).
  { vm_compute. repeat constructor; simpl; intuition discriminate. }
  split; [exact Hnd|].
  exact (remove_twice 2 (after example_spec [ADD 1; ADD 2; ADD 3]) Hnd).
Defined.

(** ** Who is handed connections *)

Lemma turn_in (x : nat) (n : nat) (r : list nat) : In x (turn n r) <-> In x r.
Proof.
  split; apply Permutation_in; [symmetry|]; apply turn_perm.
Qed.

Lemma splice1_in (x : nat) (i : Z) (r : list nat) : In x (splice1 i r) -> In x r.
Proof.
  unfold splice1; intro H; apply in_app_or in H as [H|H].
  - rewrite <- (firstn_skipn (Z.to_nat i) r); apply in_or_app; now left.
  - rewrite <- (firstn_skipn (S (Z.to_nat i)) r); apply in_or_app; now right.
Qed.

Lemma deal_in (cs : list nat) :
  forall r x c, In (x, c) (deal r cs) -> In x r.
Proof.
  induction cs as [|c0 cs IH]; intros [|ws rest] x c H; simpl in H; try tauto.
  destruct H as [H|H]; [injection H as <- _; now left|].
  apply IH in H. apply in_app_or in H as [H|[<-|[]]]; [now right|now left].
Qed.

Lemma deal_misses (ws : nat) (r cs : list nat) :
  ~ In ws r -> count_occ Nat.eq_dec (map fst (deal r cs)) ws = 0.
Proof.
  intro Hn; apply count_occ_not_In; intro H.
  apply in_map_iff in H as ([x c] & <- & H); simpl in Hn.
  now apply deal_in in H.
Qed.


Lemma dispatched_none {A : Type} (g : A -> Effect) (l : list A) :
  (forall x, dispatched [g x] = []) -> dispatched (map g l) = [].
Proof.
  intro H; apply flat_map_none; intro x.
  specialize (H x); unfold dispatched in H; simpl in H.
  now rewrite app_nil_r in H.
Qed.

(** The connections a trace shows were handed out, piece by piece. *)
Ltac tally :=
  unfold received;
  repeat (progress (rewrite ?dispatched_app, ?dispatched_hand, ?map_app,
                      ?count_occ_app;
                    rewrite ?dispatched_none by (intros; reflexivity);
                    simpl));
  rewrite ?Nat.add_0_r.

Lemma outsider_step (ev : Event) (w : World) (ws : nat) :
  ~ In ws (ring (lb w)) -> never_adds ws [ev] = true ->
  ~ In ws (ring (lb (world_of (handle ev w)))) /\
  received ws (trace (rt (world_of (handle ev w)))) = received ws (trace (rt w)).
Proof.
  intros Hn Hev; split.
  - intro Hin; apply (Permutation_in _ (Permutation_sym (ring_after ev w))) in Hin.
    destruct ev; try (now apply Hn).
    + simpl in Hev; apply andb_prop in Hev as [Hev _].
      apply negb_true_iff, Nat.eqb_neq in Hev.
      apply in_app_or in Hin as [Hin|[Hin|[]]]; [now apply Hn|now apply Hev].
    + destruct (0 <=? _)%Z; [apply splice1_in in Hin|]; now apply Hn.
  - remember (handle ev w) as o eqn:H.
    destruct ev; outcomes H w.
    all: subst o; simpl; tally; try reflexivity.
    all: try (apply andb_prop in Hev as [Hev _];
              apply negb_true_iff, Nat.eqb_neq in Hev).
    all: try (rewrite deal_misses;
              [lia|simpl; rewrite ?in_app_iff; simpl; intuition congruence]).
    destruct (Nat.eq_dec n ws) as [->|_]; [elim Hn; now left|lia].
Qed.

Lemma outsider_run (evs : list Event) (ws : nat) :
  forall w,
    ~ In ws (ring (lb w)) -> never_adds ws evs = true ->
    ~ In ws (ring (lb (world_of (run evs w)))) /\
    received ws (trace (rt (world_of (run evs w)))) = received ws (trace (rt w)).
Proof.
  induction evs as [|ev evs IH]; intros w Hn Hevs; [now split|].
  simpl in Hevs; apply andb_prop in Hevs as [Hev Hevs].
  destruct (outsider_step ev w ws Hn) as [Hn1 E1]; [simpl; now rewrite Hev|].
  unfold run; simpl; unfold bind.
  destruct (handle ev w) as [[] w1|e w1]; simpl in Hn1, E1 |- *.
  - destruct (IH w1 Hn1 Hevs) as [Hn2 E2]; split; [exact Hn2|].
    unfold run in E2; now rewrite E2.
  - now split.
Qed.

(** X3. Connections only go to workers in the ring.  A worker that is not
    in the ring is handed no connection, whatever happens, until it is
    added; so after [removeWorkerSupervisor] took the worker out of a ring
    without duplicates, no later event but its own [addWorkerSupervisor]
    gives it a connection, not even one that was waiting in the queue. *)
Theorem removed_worker_gets_nothing (ws : nat) (evs : list Event) (w : World) :
  (~ In ws (ring (lb w)) -> never_adds ws evs = true ->
   received ws (trace (rt (world_of (run evs w)))) = received ws (trace (rt w))) /\
  (NoDup (ring (lb w)) -> never_adds ws evs = true ->
   received ws (trace (rt (world_of (run (REMOVE ws :: evs) w))))
     = received ws (trace (rt w))).
Proof.
  split.
  - intros Hn Hevs; now apply outsider_run.
  - intros Hnd Hevs.
    destruct (remove_from_unique ws w Hnd) as (w' & H & Hn & _).
    unfold run; simpl; unfold bind; rewrite H.
    destruct (outsider_run evs ws w' Hn Hevs) as [_ E].
    unfold run in E; rewrite E.
    destruct (remove_first_cases ws w) as [[_ E']|(l1 & l2 & _ & _ & E')];
      rewrite E' in H; injection H as <-; reflexivity.
Qed.

Lemma removed_worker_gets_nothing_witness :
  NoDup (ring (lb (after example_spec [ADD 1; ADD 2; LISTENING 7; CONNECTION 5]))) /\
  never_adds 1 [CONNECTION 6; CONNECTION 7; ADD 3; CONNECTION 8] = true /\
  received 1 (trace (rt (after example_spec
                           [ADD 1; ADD 2; LISTENING 7; CONNECTION 5]))) = 1 /\
  received 1 (trace (rt (world_of
     (run (REMOVE 1 :: [CONNECTION 6; CONNECTION 7; ADD 3; CONNECTION 8])
          (after example_spec [ADD 1; ADD 2; LISTENING 7; CONNECTION 5])))))
    = received 1 (trace (rt (after example_spec
                               [ADD 1; ADD 2; LISTENING 7; CONNECTION 5]))).
Proof.
  assert (Hnd : NoDup (ring (lb (after example_spec
                  [ADD 1; ADD 2; LISTENING 7; CONNECTION 5])))).
  { vm_compute. repeat constructor; simpl; intuition discriminate. }
  assert (Hev : never_adds 1 [CONNECTION 6; CONNECTION 7; ADD 3; CONNECTION 8] = true)
    by reflexivity.
  split; [exact Hnd|]. split; [exact Hev|].
  split; [vm_compute; reflexivity|].
  exact (proj2 (removed_worker_gets_nothing 1
                  [CONNECTION 6; CONNECTION 7; ADD 3; CONNECTION 8]
                  (after example_spec [ADD 1; ADD 2; LISTENING 7; CONNECTION 5]))
               Hnd Hev).
Defined.

(** ** No connection is lost *)





(** ** The latched restart *)

Lemma latch_step (ev : Event) (w w' : World) :
  handle ev w = Returned tt w' ->
  (nextState (lb w) = None \/
   (nextState (lb w) = Some starting /\ state (lb w) = stopping)) ->
  nextState (lb w') = None \/
  (nextState (lb w') = Some starting /\ state (lb w') = stopping).
Proof.
  intros H Inv.
  destruct ev; outcomes H w.
  all: injection H as <-; simpl.
  all: try tauto.
  all: destruct Inv as [Inv|[Inv1 Inv2]]; (discriminate || tauto).
Qed.

Lemma latch_only_while_stopping (w : World) :
  reachable w ->
  nextState (lb w) = None \/
  (nextState (lb w) = Some starting /\ state (lb w) = stopping).
Proof.
  induction 1 as [spec w H | w w' ev _ IH H].
  - injection H as <-; now left.
  - eapply latch_step; eassumption.
Qed.

(** X5. [nextState] is the flag of a restart asked for while stopping and
    nothing else: between any two events it is [null], or it is 'starting'
    and the state is 'stopping'.  In 'standby', 'starting' and 'running' no
    restart is latched. *)
Theorem restart_latched_only_while_stopping (w : World) :
  reachable w ->
  (nextState (lb w) = None \/ nextState (lb w) = Some starting) /\
  (state (lb w) <> stopping -> nextState (lb w) = None).
Proof.
  intro Hw; destruct (latch_only_while_stopping w Hw) as [E|[E Hs]];
    rewrite E; split; auto.
  intro Hn; now elim Hn.
Qed.

Lemma restart_latched_only_while_stopping_witness :
  reachable (after example_spec [LISTENING 7; STOP None; START; CLOSE]) /\
  state (lb (after example_spec [LISTENING 7; STOP None; START; CLOSE])) <> stopping /\
  nextState (lb (after example_spec [LISTENING 7; STOP None; START; CLOSE])) = None.
Proof.
  assert (Hr : reachable (after example_spec [LISTENING 7; STOP None; START; CLOSE]))
    by (apply reachable_after; vm_compute; reflexivity).
  assert (Hs : state (lb (after example_spec [LISTENING 7; STOP None; START; CLOSE]))
               <> stopping) by (vm_compute; discriminate).
  split; [exact Hr|]. split; [exact Hs|].
  exact (proj2 (restart_latched_only_while_stopping
                  (after example_spec [LISTENING 7; STOP None; START; CLOSE]) Hr) Hs).
Defined.

(** ** The callbacks of stop *)

Lemma called_app (a b : list Effect) : called (a ++ b) = called a ++ called b.
Proof. apply flat_map_app. Qed.

Lemma called_none {A : Type} (g : A -> Effect) (l : list A) :
  (forall x, called [g x] = []) -> called (map g l) = [].
Proof.
  intro H; apply flat_map_none; intro x.
  specialize (H x); unfold called in H; simpl in H.
  now rewrite app_nil_r in H.
Qed.

Lemma called_invoke (l : list nat) : called (map Invoke l) = l.
Proof.
  induction l as [|cb l IH]; [reflexivity|].
  change (called (map Invoke (cb :: l))) with (cb :: called (map Invoke l)).
  now rewrite IH.
Qed.

Ltac callbacks :=
  repeat (progress (rewrite ?called_app, ?called_invoke, ?count_occ_app;
                    rewrite ?called_none by (intros; reflexivity);
                    simpl)).

Lemma waiting_step (ev : Event) (w w' : World) (cb : nat) :
  handle ev w = Returned tt w' ->
  (state (lb w) = standby -> standbyOnce (lb w) = []) ->
  (state (lb w') = standby -> standbyOnce (lb w') = []) /\
  count_occ Nat.eq_dec (called (trace (rt w'))) cb
    + count_occ Nat.eq_dec (standbyOnce (lb w')) cb
  = count_occ Nat.eq_dec (called (trace (rt w))) cb
    + count_occ Nat.eq_dec (standbyOnce (lb w)) cb
    + count_occ Nat.eq_dec (asked [ev]) cb.
Proof.
  intros H Inv.
  destruct ev; outcomes H w.
  all: injection H as <-; simpl.
  all: split; [try discriminate; try reflexivity; try (intros; now apply Inv)|].
  all: callbacks; try lia.
  all: destruct (Nat.eq_dec _ cb); lia.
Qed.

Lemma waiting_run (evs : list Event) (cb : nat) :
  forall w w',
    (state (lb w) = standby -> standbyOnce (lb w) = []) ->
    run evs w = Returned tt w' ->
    (state (lb w') = standby -> standbyOnce (lb w') = []) /\
    count_occ Nat.eq_dec (called (trace (rt w'))) cb
      + count_occ Nat.eq_dec (standbyOnce (lb w')) cb
    = count_occ Nat.eq_dec (called (trace (rt w))) cb
      + count_occ Nat.eq_dec (standbyOnce (lb w)) cb
      + count_occ Nat.eq_dec (asked evs) cb.
Proof.
  induction evs as [|ev evs IH]; intros w w' Inv H.
  - injection H as <-; split; [exact Inv|simpl; lia].
  - unfold run in H; simpl in H; unfold bind in H.
    destruct (handle ev w) as [[] w1|] eqn:Hev; [|discriminate H].
    destruct (waiting_step ev w w1 cb Hev Inv) as [Inv1 E1].
    destruct (IH w1 w' Inv1 H) as [Inv2 E2].
    split; [exact Inv2|].
    replace (asked (ev :: evs)) with (asked [ev] ++ asked evs)
      by (unfold asked; simpl; now rewrite app_nil_r).
    rewrite count_occ_app; lia.
Qed.

(** X6. A callback given to [stop] is called once for each time it was
    given, and no callback is left waiting in 'standby'.  After any run of
    events on a new load balancer, the times a callback was run or
    scheduled plus the times it is still waiting for 'standby' are the
    times it was passed to [stop]; and in 'standby' nothing is waiting. *)
Theorem stop_callbacks_called_once
    (spec : Spec) (evs : list Event) (w : World) (cb : nat) :
  run evs (constructed spec) = Returned tt w ->
  count_occ Nat.eq_dec (called (trace (rt w))) cb
    + count_occ Nat.eq_dec (standbyOnce (lb w)) cb
  = count_occ Nat.eq_dec (asked evs) cb /\
  (state (lb w) = standby ->
   standbyOnce (lb w) = [] /\
   count_occ Nat.eq_dec (called (trace (rt w))) cb
   = count_occ Nat.eq_dec (asked evs) cb).
Proof.
  intro H.
  destruct (waiting_run evs cb (constructed spec) w) as [Inv E];
    [intro Hs; discriminate Hs|exact H|].
  simpl in E. split; [exact E|].
  intro Hs; specialize (Inv Hs); rewrite Inv in E; simpl in E.
  split; [exact Inv|lia].
Qed.

Lemma stop_callbacks_called_once_witness :
  run [STOP (Some 4); LISTENING 7; STOP (Some 5); CLOSE; STOP (Some 4)]
      (constructed example_spec)
    = Returned tt (after example_spec
        [STOP (Some 4); LISTENING 7; STOP (Some 5); CLOSE; STOP (Some 4)]) /\
  state (lb (after example_spec
        [STOP (Some 4); LISTENING 7; STOP (Some 5); CLOSE; STOP (Some 4)])) = standby /\
  count_occ Nat.eq_dec
    (called (trace (rt (after example_spec
        [STOP (Some 4); LISTENING 7; STOP (Some 5); CLOSE; STOP (Some 4)])))) 4 = 2.
Proof.
  assert (H : run [STOP (Some 4); LISTENING 7; STOP (Some 5); CLOSE; STOP (Some 4)]
                  (constructed example_spec)
              = Returned tt (after example_spec
                  [STOP (Some 4); LISTENING 7; STOP (Some 5); CLOSE; STOP (Some 4)]))
    by (vm_compute; reflexivity).
  assert (Hs : state (lb (after example_spec
                  [STOP (Some 4); LISTENING 7; STOP (Some 5); CLOSE; STOP (Some 4)]))
               = standby) by (vm_compute; reflexivity).
  split; [exact H|]. split; [exact Hs|].
  exact (proj2 (proj2 (stop_callbacks_called_once example_spec _ _ 4 H) Hs)).
Defined.

(** ** The state machine *)







(** ** Who knows the address *)

Lemma told_step (ev : Event) (w w' : World) :
  handle ev w = Returned tt w' ->
  (state (lb w) = running ->
   forall ws, In ws (ring (lb w)) ->
     In (SendAddress ws (port (lb w)) (address (lb w))) (trace (rt w))) ->
  state (lb w') = running ->
  forall ws, In ws (ring (lb w')) ->
    In (SendAddress ws (port (lb w')) (address (lb w'))) (trace (rt w')).
Proof.
  intros H Inv.
  destruct ev; outcomes H w.
  all: injection H as <-; simpl; intros Hs x Hx; try discriminate Hs.
  all: try (now apply Inv).
  all: rewrite ?in_app_iff; simpl.
  all: try apply turn_in in Hx; try apply splice1_in in Hx.
  all: simpl in Hx; rewrite ?in_app_iff in Hx; simpl in Hx.
  all: repeat match goal with
              | H : _ \/ _ |- _ => destruct H
              | H : False |- _ => destruct H
              end.
  all: try (assert (Hold : In (SendAddress x p a) tr)
              by (apply Inv; [first [reflexivity|assumption]|simpl; tauto]); tauto).
  all: try match goal with
           | H : In ?y ?r |- context [map ?f ?r] => apply (in_map f) in H
           end.
  all: intuition (subst; auto).
Qed.

Lemma running_has_address (w : World) :
  reachable w -> state (lb w) = running -> address (lb w) <> None.
Proof.
  intro Hw.
  assert (Inv : (address (lb w) <> None <-> In (Emit running) (trace (rt w))) /\
                (state (lb w) = running -> address (lb w) <> None)).
  { induction Hw as [spec w H | w w' ev _ IH H].
    - injection H as <-; simpl; split; [|discriminate].
      split; [intro Ha; now elim Ha|].
      intro Hin; no_running_emitted.
    - eapply address_step; eassumption. }
  exact (proj2 Inv).
Qed.

(** X8. While the load balancer is running, every worker in the ring has
    been told where it listens: between any two events, if the state is
    'running', [sendAddress(port, address)] with the current port and the
    current address, which is not [null], has been called on each worker of
    the ring, whether it was in the ring when the server began to listen or
    joined later. *)
Theorem ring_knows_the_address (w : World) :
  reachable w -> state (lb w) = running ->
  address (lb w) <> None /\
  forall ws, In ws (ring (lb w)) ->
    In (SendAddress ws (port (lb w)) (address (lb w))) (trace (rt w)).
Proof.
  intros Hw Hs; split; [now apply running_has_address|].
  revert Hs; induction Hw as [spec w H | w w' ev _ IH H].
  - injection H as <-; discriminate.
  - eapply told_step; eassumption.
Qed.

Lemma ring_knows_the_address_witness :
  reachable (after example_spec [ADD 1; LISTENING 7; ADD 2; CONNECTION 5]) /\
  state (lb (after example_spec [ADD 1; LISTENING 7; ADD 2; CONNECTION 5])) = running /\
  In 2 (ring (lb (after example_spec [ADD 1; LISTENING 7; ADD 2; CONNECTION 5]))) /\
  In (SendAddress 2 (Some 80) (Some 7))
     (trace (rt (after example_spec [ADD 1; LISTENING 7; ADD 2; CONNECTION 5]))).
Proof.
  assert (Hr : reachable (after example_spec [ADD 1; LISTENING 7; ADD 2; CONNECTION 5]))
    by (apply reachable_after; vm_compute; reflexivity).
  assert (Hs : state (lb (after example_spec [ADD 1; LISTENING 7; ADD 2; CONNECTION 5]))
               = running) by (vm_compute; reflexivity).
  assert (Hin : In 2 (ring (lb (after example_spec
                  [ADD 1; LISTENING 7; ADD 2; CONNECTION 5]))))
    by (vm_compute; tauto).
  split; [exact Hr|]. split; [exact Hs|]. split; [exact Hin|].
  exact (proj2 (ring_knows_the_address
                  (after example_spec [ADD 1; LISTENING 7; ADD 2; CONNECTION 5])
                  Hr Hs) 2 Hin).
Defined.

(** ** When connections are handed out *)

Lemma turn_nonempty (n : nat) (r : list nat) : r <> [] -> turn n r <> [].
Proof.
  intros Hr E; apply Hr.
  apply Permutation_nil; rewrite <- E; symmetry; apply turn_perm.
Qed.

(** X9. Connections are handed to workers only while the load balancer is
    running.  If handling an event hands out any connection, that event is
    a 'connection', an [addWorkerSupervisor] or a 'listening' event, and it
    leaves the load balancer 'running' with a ring that is not empty:
    [start], [stop], [removeWorkerSupervisor], errors, closes and timers
    never hand out a connection. *)
Theorem dispatch_only_while_running (ev : Event) (w w' : World) :
  handle ev w = Returned tt w' ->
  dispatched (trace (rt w')) <> dispatched (trace (rt w)) ->
  state (lb w') = running /\ ring (lb w') <> [] /\
  match ev with
  | CONNECTION _ | ADD _ | LISTENING _ => True
  | _ => False
  end.
Proof.
  intros H Hd.
  destruct ev; outcomes H w.
  all: injection H as <-; simpl in *.
  all: revert Hd; tally; rewrite ?app_nil_r; intro Hd.
  all: try (now elim Hd).
  all: repeat split; try (apply turn_nonempty; discriminate).
  intro E; now destruct r.
Qed.

Lemma dispatch_only_while_running_witness :
  handle (ADD 1) (after example_spec [CONNECTION 5; LISTENING 7])
    = Returned tt (after example_spec [CONNECTION 5; LISTENING 7; ADD 1]) /\
  dispatched (trace (rt (after example_spec [CONNECTION 5; LISTENING 7; ADD 1])))
    <> dispatched (trace (rt (after example_spec [CONNECTION 5; LISTENING 7]))) /\
  state (lb (after example_spec [CONNECTION 5; LISTENING 7; ADD 1])) = running.
Proof.
  assert (H : handle (ADD 1) (after example_spec [CONNECTION 5; LISTENING 7])
              = Returned tt (after example_spec [CONNECTION 5; LISTENING 7; ADD 1]))
    by (vm_compute; reflexivity).
  assert (Hd : dispatched (trace (rt (after example_spec
                   [CONNECTION 5; LISTENING 7; ADD 1])))
               <> dispatched (trace (rt (after example_spec
                   [CONNECTION 5; LISTENING 7]))))
    by (vm_compute; discriminate).
  split; [exact H|]. split; [exact Hd|].
  exact (proj1 (dispatch_only_while_running (ADD 1) _ _ H Hd)).
Defined.

(** ** The ring as a wheel *)

Lemma turn_closed_form (k : nat) :
  forall r, r <> [] ->
  turn k r = skipn (k mod length r) r ++ firstn (k mod length r) r.
Proof.
  induction k as [|k IH]; intros [|ws rest] Hr; try (now elim Hr).
  - rewrite Nat.Div0.mod_0_l; simpl; now rewrite app_nil_r.
  - change (turn (S k) (ws :: rest)) with (turn k (rest ++ [ws])).
    rewrite IH by (now destruct rest).
    replace (length (rest ++ [ws])) with (length (ws :: rest))
      by (rewrite length_app; simpl; lia).
    assert (Hn : length (ws :: rest) = S (length rest)) by reflexivity.
    destruct (succ_div_mod k (length (ws :: rest))) as [(H & _ & E)|(H & _ & E)];
      [lia| |]; rewrite E.
    + rewrite skipn_app, firstn_app.
      replace (k mod length (ws :: rest) - length rest) with 0 by lia.
      simpl. rewrite app_nil_r, <- app_assoc. reflexivity.
    + replace (k mod length (ws :: rest)) with (length rest) by lia.
      rewrite skipn_app, firstn_app, skipn_all, firstn_all, Nat.sub_diag.
      simpl; now rewrite app_nil_r.
Qed.

(** X10. Dispatching turns the ring like a wheel and never reorders it.  On
    a running load balancer with a ring [r] of [n] entries, after [m]
    connections the ring is [r] cut at position [m mod n] with the two
    parts swapped; so after every [n] connections the ring is back in the
    order it had. *)
Theorem ring_turns_like_a_wheel (cs : list nat) (w : World) :
  state (lb w) = running -> ring (lb w) <> [] ->
  exists w',
    run (map CONNECTION cs) w = Returned tt w' /\
    ring (lb w') =
      skipn (length cs mod length (ring (lb w))) (ring (lb w))
        ++ firstn (length cs mod length (ring (lb w))) (ring (lb w)) /\
    (length cs mod length (ring (lb w)) = 0 -> ring (lb w') = ring (lb w)).
Proof.
  intros Hs Hr.
  destruct (run_connections_running cs w Hs Hr) as (w' & H & _ & _ & Hring & _).
  exists w'; split; [exact H|].
  rewrite Hring, turn_closed_form by assumption.
  split; [reflexivity|].
  intros ->; simpl; now rewrite app_nil_r.
Qed.

Lemma ring_turns_like_a_wheel_witness :
  state (lb (after example_spec [ADD 1; ADD 2; ADD 3; LISTENING 7])) = running /\
  ring (lb (after example_spec [ADD 1; ADD 2; ADD 3; LISTENING 7])) <> [] /\
  exists w',
    run (map CONNECTION [10; 11; 12; 13; 14; 15])
        (after example_spec [ADD 1; ADD 2; ADD 3; LISTENING 7]) = Returned tt w' /\
    ring (lb w') = [1; 2; 3].
Proof.
  assert (Hs : state (lb (after example_spec [ADD 1; ADD 2; ADD 3; LISTENING 7]))
               = running) by (vm_compute; reflexivity).
  assert (Hr : ring (lb (after example_spec [ADD 1; ADD 2; ADD 3; LISTENING 7]))
               <> []) by (vm_compute; discriminate).
  split; [exact Hs|]. split; [exact Hr|].
  destruct (ring_turns_like_a_wheel [10; 11; 12; 13; 14; 15]
              (after example_spec [ADD 1; ADD 2; ADD 3; LISTENING 7]) Hs Hr)
    as (w' & H & E & _).
  exists w'; split; [exact H|exact E].
Defined.

(** ** Closes *)


(** ** Stopping *)

(** X12. [stop] is idempotent in what it does to the server: once [stop]
    has returned, a further [stop], with or without a callback, returns,
    leaves the state as it is, closes nothing and emits no state change;
    without a callback it changes nothing at all. *)
Theorem stop_again_does_nothing (cb cb' : option nat) (w w1 : World) :
  stop cb w = Returned tt w1 ->
  stop None w1 = Returned tt w1 /\
  exists w2,
    stop cb' w1 = Returned tt w2 /\
    state (lb w2) = state (lb w1) /\
    ring (lb w2) = ring (lb w1) /\
    queue (lb w2) = queue (lb w1) /\
    closes (trace (rt w2)) = closes (trace (rt w1)) /\
    transitions (trace (rt w2)) = transitions (trace (rt w1)).
Proof.
  intro H; rewrite stop_eq in H; rewrite !stop_eq.
  world w; simpl in H.
  destruct st, sv, cb; simpl in H; try discriminate H; injection H as <-; simpl.
  all: split; [reflexivity|].
  all: eexists; (split; [reflexivity|]).
  all: destruct cb'; simpl; repeat split; now observe.
Qed.

Lemma stop_again_does_nothing_witness :
  stop (Some 4) (after example_spec [LISTENING 7])
    = Returned tt (after example_spec [LISTENING 7; STOP (Some 4)]) /\
  stop None (after example_spec [LISTENING 7; STOP (Some 4)])
    = Returned tt (after example_spec [LISTENING 7; STOP (Some 4)]).
Proof.
  assert (H : stop (Some 4) (after example_spec [LISTENING 7])
              = Returned tt (after example_spec [LISTENING 7; STOP (Some 4)]))
    by (vm_compute; reflexivity).
  split; [exact H|].
  exact (proj1 (stop_again_does_nothing (Some 4) None _ _ H)).
Defined.

(** X13. Only [start] takes the load balancer out of 'standby', called by
    its user or by an armed restart timer.  Every other method call or
    event in 'standby' leaves the state 'standby' and asks no server to
    listen, whether the handler returns or throws. *)
Theorem standby_is_left_only_by_start (ev : Event) (w : World) :
  state (lb w) = standby ->
  (state (lb (world_of (handle ev w))) = standby /\
   listens (trace (rt (world_of (handle ev w)))) = listens (trace (rt w))) \/
  (state (lb (world_of (handle ev w))) = starting /\
   (ev = START \/ exists t, ev = TIMEOUT t /\ armed t (timers (rt w)) = true)).
Proof.
  intro Hs.
  remember (handle ev w) as o eqn:H.
  destruct ev; outcomes H w; try discriminate Hs.
  all: subst o; simpl.
  all: try (left; split; [first [reflexivity|assumption]|now observe]).
  all: right; split; [reflexivity|]; eauto.
Qed.

Lemma standby_is_left_only_by_start_witness :
  state (lb (after example_spec [LISTENING 7; CLOSE])) = standby /\
  state (lb (world_of (handle (ERROR 9) (after example_spec [LISTENING 7; CLOSE]))))
    = standby.
Proof.
  assert (Hs : state (lb (after example_spec [LISTENING 7; CLOSE])) = standby)
    by (vm_compute; reflexivity).
  split; [exact Hs|].
  destruct (standby_is_left_only_by_start
              (ERROR 9) (after example_spec [LISTENING 7; CLOSE]) Hs)
    as [[E _]|[_ [E|(t & E & _)]]]; [exact E|discriminate E|discriminate E].
Defined.

(** ** Adding and removing *)

Lemma backlog_inv (w : World) :
  reachable w ->
  state (lb w) = running -> ring (lb w) <> [] -> queue (lb w) = [].
Proof.
  induction 1 as [spec w H | w w' ev _ IH H].
  - injection H as <-; discriminate.
  - eapply backlog_step; eassumption.
Qed.

Lemma turn_singleton (k : nat) (x : nat) : turn k [x] = [x].
Proof. induction k as [|k IH]; [reflexivity|exact IH]. Qed.

Lemma add_appends (ws : nat) (w : World) :
  reachable w ->
  exists w1,
    addWorkerSupervisor ws w = Returned tt w1 /\
    ring (lb w1) = ring (lb w) ++ [ws] /\
    state (lb w1) = state (lb w).
Proof.
  intro Hw; pose proof (backlog_inv w Hw) as Inv.
  rewrite addWorkerSupervisor_eq.
  eexists; split; [reflexivity|].
  world w; simpl in Inv |- *.
  destruct st; simpl; try (split; reflexivity).
  destruct r as [|x r]; simpl.
  - split; [apply turn_singleton|reflexivity].
  - rewrite Inv by (reflexivity || discriminate). split; reflexivity.
Qed.

(** X14. Adding a worker and removing it again leaves the ring as it was.
    Between any two events, [addWorkerSupervisor] of a worker that is not
    in the ring puts it last in the ring, behind the workers already
    there and in their order, and [removeWorkerSupervisor] of the same
    worker then gives back the ring as it was before, in the same
    state. *)
Theorem add_then_remove_restores_ring (ws : nat) (w : World) :
  reachable w -> ~ In ws (ring (lb w)) ->
  exists w1 w2,
    addWorkerSupervisor ws w = Returned tt w1 /\
    ring (lb w1) = ring (lb w) ++ [ws] /\
    removeWorkerSupervisor ws w1 = Returned tt w2 /\
    ring (lb w2) = ring (lb w) /\
    state (lb w2) = state (lb w).
Proof.
  intros Hw Hn.
  destruct (add_appends ws w Hw) as (w1 & H1 & R1 & S1).
  exists w1, (upd (set_ring (ring (lb w) ++ [])) w1).
  split; [exact H1|]. split; [exact R1|].
  split; [now apply removeWorkerSupervisor_present|].
  simpl; split; [apply app_nil_r|exact S1].
Qed.

Lemma add_then_remove_restores_ring_witness :
  reachable (after example_spec [ADD 1; CONNECTION 5; LISTENING 7]) /\
  ~ In 2 (ring (lb (after example_spec [ADD 1; CONNECTION 5; LISTENING 7]))) /\
  exists w1 w2,
    addWorkerSupervisor 2 (after example_spec [ADD 1; CONNECTION 5; LISTENING 7])
      = Returned tt w1 /\
    ring (lb w1) = [1; 2] /\
    removeWorkerSupervisor 2 w1 = Returned tt w2 /\
    ring (lb w2) = [1] /\
    state (lb w2) = running.
Proof.
  assert (Hr : reachable (after example_spec [ADD 1; CONNECTION 5; LISTENING 7]))
    by (apply reachable_after; vm_compute; reflexivity).
  assert (Hn : ~ In 2 (ring (lb (after example_spec
                  [ADD 1; CONNECTION 5; LISTENING 7]))))
    by (vm_compute; intuition discriminate).
  split; [exact Hr|]. split; [exact Hn|].
  exact (add_then_remove_restores_ring 2
           (after example_spec [ADD 1; CONNECTION 5; LISTENING 7]) Hr Hn).
Defined.

(** ** The servers *)

Lemma listens_app (a b : list Effect) : listens (a ++ b) = listens a ++ listens b.
Proof. apply flat_map_app. Qed.

Lemma closes_app (a b : list Effect) : closes (a ++ b) = closes a ++ closes b.
Proof. apply flat_map_app. Qed.

Lemma listens_none {A : Type} (g : A -> Effect) (l : list A) :
  (forall x, listens [g x] = []) -> listens (map g l) = [].
Proof.
  intro H; apply flat_map_none; intro x.
  specialize (H x); unfold listens in H; simpl in H.
  now rewrite app_nil_r in H.
Qed.

Lemma closes_none {A : Type} (g : A -> Effect) (l : list A) :
  (forall x, closes [g x] = []) -> closes (map g l) = [].
Proof.
  intro H; apply flat_map_none; intro x.
  specialize (H x); unfold closes in H; simpl in H.
  now rewrite app_nil_r in H.
Qed.

Lemma servers_step (ev : Event) (w w' : World) :
  handle ev w = Returned tt w' -> servers_ok w -> servers_ok w'.
Proof.
  unfold servers_ok; intros H (Hnd & Hlt & (l0 & s0 & El & Es) & Hcl).
  destruct ev; outcomes H w.
  all: injection H as <-; simpl in *.
  all: repeat (progress (rewrite ?listens_app, ?closes_app;
                         rewrite ?listens_none, ?closes_none by (intros; reflexivity);
                         simpl)).
  all: rewrite ?app_nil_r.
  all: try (repeat split; eauto; fail).
  all: repeat split.
  all: try (do 2 eexists; split;
            [first [reflexivity|eassumption]|first [reflexivity|eassumption]]).
  all: try (apply (Permutation_NoDup (Permutation_cons_append _ _)); constructor;
            [intro Hin; apply Hlt in Hin; lia|exact Hnd]).
  all: try exact Hnd.
  all: intros x Hin;
    try (apply in_app_or in Hin as [Hin|[<-|[]]]);
    try (apply Hlt in Hin; lia); try lia;
    try (apply in_or_app; left; now apply Hcl);
    try (now apply Hcl).
  all: injection Es as ->; rewrite El; apply in_or_app; right; now left.
Qed.

(** X15. A server is made for every start and used for one listen.
    Between any two events no server has been asked to listen twice,
    [this.server] is the server of the latest listen, and [close] has only
    been called on servers that were asked to listen. *)
Theorem servers_are_used_once (w : World) :
  reachable w ->
  NoDup (listens (trace (rt w))) /\
  (exists l0 sv, listens (trace (rt w)) = l0 ++ [sv] /\ server (lb w) = Some sv) /\
  (forall x, In x (closes (trace (rt w))) -> In x (listens (trace (rt w)))).
Proof.
  intro Hw.
  assert (Inv : servers_ok w).
  { induction Hw as [spec w H | w w' ev _ IH H].
    - injection H as <-; unfold servers_ok; simpl.
      repeat split.
      + repeat constructor; simpl; tauto.
      + intros x [<-|[]]; lia.
      + exists [], 0; split; reflexivity.
      + intros x [].
    - eapply servers_step; eassumption. }
  destruct Inv as (Hnd & _ & Hs & Hcl); repeat split; assumption.
Qed.

Lemma servers_are_used_once_witness :
  reachable (after example_spec [LISTENING 7; STOP None; START; CLOSE; TIMEOUT 1]) /\
  NoDup (listens (trace (rt (after example_spec
           [LISTENING 7; STOP None; START; CLOSE; TIMEOUT 1])))) /\
  listens (trace (rt (after example_spec
           [LISTENING 7; STOP None; START; CLOSE; TIMEOUT 1]))) = [0; 2] /\
  server (lb (after example_spec
           [LISTENING 7; STOP None; START; CLOSE; TIMEOUT 1])) = Some 2.
Proof.
  assert (Hr : reachable (after example_spec
                 [LISTENING 7; STOP None; START; CLOSE; TIMEOUT 1]))
    by (apply reachable_after; vm_compute; reflexivity).
  split; [exact Hr|].
  split; [exact (proj1 (servers_are_used_once _ Hr))|].
  split; vm_compute; reflexivity.
Defined.

(** ** A stop that is not followed by a start *)





(** ** Enumerating the ring *)


(** ** What workers are told *)

Ltac pick_apart :=
  repeat match goal with
         | H : _ \/ _ |- _ => destruct H
         | H : exists _, _ |- _ => destruct H
         | H : _ /\ _ |- _ => destruct H
         | H : False |- _ => destruct H
         | H : In _ (_ ++ _) |- _ => apply in_app_or in H
         | H : In _ (map _ _) |- _ => apply in_map_iff in H
         | H : In _ (_ :: _) |- _ => simpl in H
         | H : In _ [] |- _ => destruct H
         end.

Lemma sent_step (ev : Event) (w w' : World) :
  handle ev w = Returned tt w' ->
  (state (lb w) = running -> address (lb w) <> None) ->
  (forall ws p a, In (SendAddress ws p a) (trace (rt w)) ->
                  a <> None /\ p = port (lb w)) ->
  forall ws p a, In (SendAddress ws p a) (trace (rt w')) ->
                 a <> None /\ p = port (lb w').
Proof.
  intros H Hrun Inv.
  destruct ev; outcomes H w.
  all: injection H as <-; simpl; intros x px ax Hin.
  all: try (now apply (Inv x)).
  all: pick_apart.
  all: try (now apply (Inv x)).
  all: try discriminate.
  all: match goal with
       | E : SendAddress _ _ _ = SendAddress _ _ _ |- _ => injection E as <- <- <-
       end.
  all: split; [first [now apply Hrun|discriminate]|reflexivity].
Qed.

(** X18. A worker is never told a [null] address or another port:
    between any two events, every [sendAddress(port, address)] made so far
    carried the port of the load balancer and an address that is not
    [null]. *)
Theorem workers_are_told_a_real_address (w : World) :
  reachable w ->
  forall ws p a, In (SendAddress ws p a) (trace (rt w)) ->
                 a <> None /\ p = port (lb w).
Proof.
  induction 1 as [spec w H | w w' ev Hw IH H].
  - injection H as <-; simpl; intros ws p a Hin; pick_apart; discriminate.
  - eapply sent_step; [exact H| |exact IH].
    now apply running_has_address.
Qed.

Lemma workers_are_told_a_real_address_witness :
  reachable (after example_spec [ADD 1; LISTENING 7; ADD 2]) /\
  In (SendAddress 2 (Some 80) (Some 7))
     (trace (rt (after example_spec [ADD 1; LISTENING 7; ADD 2]))) /\
  Some 7 <> None /\ Some 80 = port (lb (after example_spec [ADD 1; LISTENING 7; ADD 2])).
Proof.
  assert (Hr : reachable (after example_spec [ADD 1; LISTENING 7; ADD 2]))
    by (apply reachable_after; vm_compute; reflexivity).
  assert (Hin : In (SendAddress 2 (Some 80) (Some 7))
                   (trace (rt (after example_spec [ADD 1; LISTENING 7; ADD 2]))))
    by (vm_compute; tauto).
  split; [exact Hr|]. split; [exact Hin|].
  exact (workers_are_told_a_real_address
           (after example_spec [ADD 1; LISTENING 7; ADD 2]) Hr 2 (Some 80) (Some 7) Hin).
Defined.
